(** * Hand-gesture volume control: a shallow embedding of [control.py]

    The program maps the pixel distance between two fingertips to a volume
    level with [np.interp], applies it to the audio endpoint and draws
    overlays on the camera frame.

    Conventions of the embedding:
    - Python [int] is [Z]; a Python [float] is a rational number [Q] (every
      finite float is one).  The arithmetic of [np.interp] is taken exact:
      rounding of the floating-point operations is not modelled, nor are NaN
      and the infinities.
    - [img] is mutated in place by every [cv2] drawing call; it is threaded
      through a small state-and-exception monad together with the console
      and the values accepted by the audio endpoint.
    - [math.hypot] and the replies of the audio endpoint are inputs. *)

From Stdlib Require Import ZArith QArith Qround Qabs List String Bool Lia Lqa.
From Stdlib Require Import DecimalString.
Import ListNotations.

Open Scope Q_scope.

(** ** Numbers *)

Definition Qltb (a b : Q) : bool := negb (Qle_bool b a).

(** Python's [int(x)] on a float: truncation toward zero. *)
Definition py_int (x : Q) : Z :=
  if Qltb x 0 then Qceiling x else Qfloor x.

(** Python's [str(n)] for an [int]. *)
Definition str_int (n : Z) : string := NilZero.string_of_int (Z.to_int n).

(** ** Constants (lines 10-26) *)

Definition color : Type := Z * Z * Z.
Definition point : Type := Z * Z.

Definition MIN_LENGTH : Z := 50.
Definition MAX_LENGTH : Z := 300.
Definition MIN_VOLUME : Z := -21.
Definition MAX_VOLUME : Z := 0.
Definition CIRCLE_RADIUS : Z := 15.
Definition LINE_THICKNESS : Z := 3.
Definition FONT_SIZE : Q := 1.
Definition FONT_THICKNESS : Z := 2.
Definition FONT_COLOR : color := (255, 255, 255)%Z.
Definition VOLUME_BAR_COLOR_LOW : color := (0, 255, 0)%Z.
Definition VOLUME_BAR_COLOR_HIGH : color := (0, 0, 255)%Z.
Definition VOLUME_BAR_COLOR_MUTE : color := (0, 0, 0)%Z.
Definition HAND_ICON_RADIUS : Z := 30.
Definition HAND_ICON_THICKNESS : Z := 2.
Definition HAND_ICON_COLOR : color := (255, 255, 255)%Z.

(** [cv2.FILLED] *)
Definition FILLED : Z := -1.

(** ** [np.interp]

    One-dimensional piecewise linear interpolation through the points
    [(xp[i], fp[i])], [xp] increasing.  Left of [xp[0]] the value is
    [fp[0]], right of [xp[-1]] it is [fp[-1]] (no extrapolation).  Inside,
    with [j] the segment such that [xp[j] <= x < xp[j+1]], the value is
    [fp[j]] when [x == xp[j]] and
    [(fp[j+1] - fp[j]) / (xp[j+1] - xp[j]) * (x - xp[j]) + fp[j]] otherwise. *)

Fixpoint interp_from (x x0 y0 : Q) (rest : list (Q * Q)) : Q :=
  match rest with
  | [] => y0
  | (x1, y1) :: rest' =>
      if Qltb x x1 then
        if Qeq_bool x0 x then y0
        else (y1 - y0) / (x1 - x0) * (x - x0) + y0
      else interp_from x x1 y1 rest'
  end.

(** An empty [xp] is rejected by numpy; no call of the program has one. *)
Definition np_interp (x : Q) (xp fp : list Q) : Q :=
  match combine xp fp with
  | [] => 0
  | (x0, y0) :: rest => if Qltb x x0 then y0 else interp_from x x0 y0 rest
  end.

(** ** The three interpolations of the distance (lines 28-38) *)

Definition calculate_volume (length : Q) : Q :=
  np_interp length [inject_Z MIN_LENGTH; inject_Z MAX_LENGTH]
                   [inject_Z MIN_VOLUME; inject_Z MAX_VOLUME].

Definition calculate_volume_bar (length : Q) : Q :=
  np_interp length [inject_Z MIN_LENGTH; inject_Z MAX_LENGTH] [600; 10].

Definition calculate_volume_percentage (length : Q) : Q :=
  np_interp length [inject_Z MIN_LENGTH; inject_Z MAX_LENGTH] [0; 100].

(** ** Exceptions, effects and the state they act on *)

Inductive exn : Type :=
  | IndexError (msg : string)
  | UnboundLocalError (msg : string)
  | cv2_error (msg : string)
  | COMError (msg : string)
  | KeyboardInterrupt.

(** [isinstance(e, Exception)]: [KeyboardInterrupt] derives from
    [BaseException] only. *)
Definition is_Exception (e : exn) : bool :=
  match e with
  | KeyboardInterrupt => false
  | _ => true
  end.

(** [str(e)] *)
Definition exn_str (e : exn) : string :=
  match e with
  | IndexError m | UnboundLocalError m | cv2_error m | COMError m => m
  | KeyboardInterrupt => EmptyString
  end.

Inductive font : Type := FONT_HERSHEY_PLAIN | FONT_HERSHEY_SIMPLEX.

Record landmark : Type := { lm_x : Q; lm_y : Q }.

(** What the [cv2] and [mediapipe] drawing calls leave on the frame. *)
Inductive draw_cmd : Type :=
  | Circle (center : point) (radius : Z) (c : color) (thickness : Z)
  | Line (p1 p2 : point) (c : color) (thickness : Z)
  | Rectangle (p1 p2 : point) (c : color) (thickness : Z)
  | PutText (text : string) (org : point) (face : font) (scale : Q)
            (c : color) (thickness : Z)
  | Landmarks (hand : list landmark).

(** A frame: its [shape] [(h, w, c)] and everything drawn on it so far. *)
Record image : Type := { shape : Z * Z * Z; overlay : list draw_cmd }.

Record world : Type := {
  img : image;              (* the frame being annotated *)
  console : list string;    (* lines printed *)
  set_calls : list Q;       (* arguments of SetMasterVolumeLevel, in order *)
  shown : list image        (* frames handed to cv2.imshow *)
}.

Inductive result (A : Type) : Type :=
  | Ok (a : A)
  | Raise (e : exn).
Arguments Ok {A} a.
Arguments Raise {A} e.

Definition M (A : Type) : Type := world -> result A * world.

Definition ret {A} (a : A) : M A := fun w => (Ok a, w).

Definition bind {A B} (m : M A) (k : A -> M B) : M B :=
  fun w => match m w with
           | (Ok a, w') => k a w'
           | (Raise e, w') => (Raise e, w')
           end.

Definition raise {A} (e : exn) : M A := fun w => (Raise e, w).

Notation "x <- m ;; k" := (bind m (fun x => k))
  (at level 61, m at next level, right associativity).
Notation "m ;; k" := (bind m (fun _ => k))
  (at level 61, right associativity).

(** [try: body / except Exception as e: handler e] *)
Definition try_except {A} (body : M A) (handler : exn -> M A) : M A :=
  fun w => match body w with
           | (Raise e, w') =>
               if is_Exception e then handler e w' else (Raise e, w')
           | r => r
           end.

Definition get_img : M image := fun w => (Ok (img w), w).

Definition draw (d : draw_cmd) : M unit :=
  fun w => (Ok tt,
            {| img := {| shape := shape (img w);
                         overlay := overlay (img w) ++ [d] |};
               console := console w; set_calls := set_calls w;
               shown := shown w |}).

Definition print (line : string) : M unit :=
  fun w => (Ok tt,
            {| img := img w; console := console w ++ [line];
               set_calls := set_calls w; shown := shown w |}).

(** The audio endpoint is outside the program: what its two methods answer
    during one frame is an input. *)
Record endpoint : Type := {
  set_reply : Q -> option exn;   (* [None]: the call returns *)
  mute_reply : result bool
}.

Definition SetMasterVolumeLevel (volume : endpoint) (level : Q) : M unit :=
  fun w =>
    let w' := {| img := img w; console := console w;
                 set_calls := set_calls w ++ [level];
                 shown := shown w |} in
    match set_reply volume level with
    | None => (Ok tt, w')
    | Some e => (Raise e, w')
    end.

Definition GetMute (volume : endpoint) : M bool :=
  fun w => (mute_reply volume, w).

(** ** Lists as Python uses them *)

Fixpoint enumerate_from {A} (n : Z) (l : list A) : list (Z * A) :=
  match l with
  | [] => []
  | a :: l' => (n, a) :: enumerate_from (n + 1) l'
  end.

Definition enumerate {A} (l : list A) : list (Z * A) := enumerate_from 0 l.

(** [l[i]] for a constant [i >= 0]. *)
Definition index {A} (l : list A) (i : nat) : M A :=
  match nth_error l i with
  | Some a => ret a
  | None => raise (IndexError "list index out of range")
  end.

(** ** [process_hand_landmarks] (lines 40-94) *)

(** Lines 42-46: the entries [[id, cx, cy]] of [lmList]. *)
Definition build_lmList (shp : Z * Z * Z) (hand_landmarks : list landmark)
  : list (Z * Z * Z) :=
  let '(h, w, _) := shp in
  map (fun '(id, lm) =>
         (id, py_int (lm_x lm * inject_Z w), py_int (lm_y lm * inject_Z h)))
      (enumerate hand_landmarks).

Section Pipeline.

(** [math.hypot] on two [int] arguments; its result is a float. *)
Variable hypot : Z -> Z -> Q.

(** Lines 61-89, the body of the [try]. [(cx, cy)] are the variables the
    [for] loop of line 43 left behind: the last landmark. *)
Definition apply_and_draw (length : Q) (cx cy : Z) (volume : endpoint)
  : M unit :=
  let volume_level := calculate_volume length in
  let volBar := calculate_volume_bar length in
  let volPer := calculate_volume_percentage length in
  SetMasterVolumeLevel volume volume_level ;;
  volume_mute <- GetMute volume ;;
  let vol_color :=
    if (volume_mute : bool) then VOLUME_BAR_COLOR_MUTE
    else if Qltb volume_level 0 then VOLUME_BAR_COLOR_LOW
    else VOLUME_BAR_COLOR_HIGH in
  draw (Rectangle (50, 150)%Z (85, 400)%Z vol_color LINE_THICKNESS) ;;
  draw (Rectangle (50, py_int volBar)%Z (85, 400)%Z vol_color FILLED) ;;
  draw (PutText (str_int (py_int volPer) ++ "%") (40, 450)%Z
                FONT_HERSHEY_PLAIN FONT_SIZE FONT_COLOR FONT_THICKNESS) ;;
  let instructions1 := "Spread your fingers to adjust volume."%string in
  let instructions2 := "Bring fingertips close to mute."%string in
  draw (PutText instructions1 (20, 30)%Z FONT_HERSHEY_SIMPLEX (7 # 10)
                FONT_COLOR 2) ;;
  draw (PutText instructions2 (20, 55)%Z FONT_HERSHEY_SIMPLEX (7 # 10)
                FONT_COLOR 2) ;;
  if Qltb 1 (Qabs volume_level) then
    let volume_change_color : color :=
      if Qltb 0 volume_level then (0, 255, 0)%Z else (0, 0, 255)%Z in
    draw (Circle (cx, cy) CIRCLE_RADIUS volume_change_color LINE_THICKNESS)
  else ret tt.

Definition process_hand_landmarks (hand_landmarks : list landmark)
    (volume : endpoint) : M Q :=
  im <- get_img ;;
  let lmList := build_lmList (shape im) hand_landmarks in
  match lmList with
  | [] =>
      (* [if lmList:] is skipped and [return length] finds no binding *)
      raise (UnboundLocalError
        "cannot access local variable 'length' where it is not associated with a value")
  | _ :: _ =>
      let '(_, cx, cy) := last lmList (0, 0, 0)%Z in
      e4 <- index lmList 4 ;;
      let '(_, x1, y1) := e4 in
      e8 <- index lmList 8 ;;
      let '(_, x2, y2) := e8 in
      draw (Circle (x1, y1) CIRCLE_RADIUS (255, 0, 0)%Z FILLED) ;;
      draw (Circle (x2, y2) CIRCLE_RADIUS (255, 0, 0)%Z FILLED) ;;
      draw (Line (x1, y1) (x2, y2) (255, 0, 255)%Z LINE_THICKNESS) ;;
      let z1 := ((x1 + x2) / 2)%Z in
      let z2 := ((y1 + y2) / 2)%Z in
      let length := hypot (x2 - x1) (y2 - y1) in
      (if Qltb length (inject_Z MIN_LENGTH)
       then draw (Circle (z1, z2) CIRCLE_RADIUS (255, 255, 255)%Z FILLED)
       else ret tt) ;;
      try_except
        (apply_and_draw length cx cy volume)
        (fun e => print ("Error updating volume: " ++ exn_str e)) ;;
      ret length
  end.

(** ** Presentation helpers (lines 96-114) *)

(** Line 99: the interpolation, then [int]. *)
Definition indicator_interp (volume_level : Q) : Q :=
  np_interp volume_level [inject_Z MIN_VOLUME; inject_Z MAX_VOLUME] [400; 150].

Definition volume_indicator_y (volume_level : Q) : Z :=
  py_int (indicator_interp volume_level).

Definition display_volume_indicator (volume_level : Q) : M unit :=
  let volume_indicator_x := 40%Z in
  draw (Circle (volume_indicator_x, volume_indicator_y volume_level)
               HAND_ICON_RADIUS HAND_ICON_COLOR HAND_ICON_THICKNESS).

Definition MSG_HIGH : string := "Volume is high! Lower it down a bit.".
Definition MSG_MODERATE : string := "Volume is moderate. Enjoy your music!".
Definition MSG_LOW : string :=
  "Volume is low. Turn it up for a better experience!".

(** Lines 104-109: the local [message]. *)
Definition volume_message (volume_level : Q) : string :=
  if Qltb (-5) volume_level then MSG_HIGH
  else if Qltb (-12) volume_level then MSG_MODERATE
  else MSG_LOW.

Definition display_volume_message (volume_level : Q) : M unit :=
  draw (PutText (volume_message volume_level) (150, 30)%Z
                FONT_HERSHEY_SIMPLEX (7 # 10) HAND_ICON_COLOR 2).

(** The body is a comment only. *)
Definition display_hand_icon (hand_landmarks : list landmark) : M unit :=
  ret tt.

(** ** The control loop of [main] (lines 126-157) *)

(** What the outside world supplies during one iteration. *)
Record frame : Type := {
  capture : option (Z * Z * Z);               (* shape of the frame read *)
  multi_hand_landmarks : list (list landmark);  (* empty: no hand *)
  volume : endpoint;
  key : Z                                       (* cv2.waitKey(1) *)
}.

(** The two locals that live across iterations. *)
Record locals : Type := { length : Q; handLms : option (list landmark) }.

Definition initial_locals : locals :=
  {| length := inject_Z MAX_LENGTH; handLms := None |}.

(** Lines 132-133: a failed read leaves [img = None] and [cv2.cvtColor]
    raises. *)
Definition cap_read (f : frame) : M unit :=
  match capture f with
  | Some shp =>
      fun w => (Ok tt,
                {| img := {| shape := shp; overlay := [] |};
                   console := console w; set_calls := set_calls w;
                   shown := shown w |})
  | None => raise (cv2_error "(-215:Assertion failed) !_src.empty()")
  end.

Definition imshow : M unit :=
  fun w => (Ok tt,
            {| img := img w; console := console w; set_calls := set_calls w;
               shown := shown w ++ [img w] |}).

(** Lines 136-144. *)
Definition detect_and_process (s : locals) (f : frame) : M locals :=
  match multi_hand_landmarks f with
  | [] => ret s
  | hand :: _ =>
      draw (Landmarks hand) ;;
      len <- process_hand_landmarks hand (volume f) ;;
      ret {| length := len; handLms := Some hand |}
  end.

(** One pass of [while True]; the boolean is [true] when [break] is taken. *)
Definition loop_body (s : locals) (f : frame) : M (locals * bool) :=
  cap_read f ;;
  s' <- detect_and_process s f ;;
  let volume_level := calculate_volume (length s') in
  display_volume_indicator volume_level ;;
  display_volume_message volume_level ;;
  match handLms s' with
  | Some h => display_hand_icon h
  | None => ret tt
  end ;;
  imshow ;;
  ret (s', (key f =? 27)%Z).

Inductive status : Type :=
  | Running (s : locals)    (* the frames given are consumed, no break yet *)
  | Stopped (s : locals).   (* Esc was pressed *)

Fixpoint run_loop (s : locals) (frames : list frame) : M status :=
  match frames with
  | [] => ret (Running s)
  | f :: frames' =>
      r <- loop_body s f ;;
      if snd r then ret (Stopped (fst r)) else run_loop (fst r) frames'
  end.

End Pipeline.

(** ** Notions used to state the properties *)

(** The world after [draws] were added to the frame, [lines] printed and
    [levels] passed to [SetMasterVolumeLevel]. *)
Definition emit (draws : list draw_cmd) (lines : list string)
    (levels : list Q) (w : world) : world :=
  {| img := {| shape := shape (img w); overlay := overlay (img w) ++ draws |};
     console := console w ++ lines;
     set_calls := set_calls w ++ levels;
     shown := shown w |}.

(** Pixel position of landmark [i], as stored in [lmList[i]]. *)
Definition pixel (shp : Z * Z * Z) (hand : list landmark) (i : nat) : point :=
  let '(_, x, y) := nth i (build_lmList shp hand) (0, 0, 0)%Z in (x, y).

Section Measurement.

Variable hypot : Z -> Z -> Q.

(** The distance measured on a hand: thumb tip (4) to index tip (8). *)
Definition fingertip_distance (shp : Z * Z * Z) (hand : list landmark) : Q :=
  let '(x1, y1) := pixel shp hand 4 in
  let '(x2, y2) := pixel shp hand 8 in
  hypot (x2 - x1) (y2 - y1).

(** What lines 51-58 draw. *)
Definition fingertip_marks (shp : Z * Z * Z) (hand : list landmark)
  : list draw_cmd :=
  let '(x1, y1) := pixel shp hand 4 in
  let '(x2, y2) := pixel shp hand 8 in
  [Circle (x1, y1) CIRCLE_RADIUS (255, 0, 0)%Z FILLED;
   Circle (x2, y2) CIRCLE_RADIUS (255, 0, 0)%Z FILLED;
   Line (x1, y1) (x2, y2) (255, 0, 255)%Z LINE_THICKNESS] ++
  (if Qltb (fingertip_distance shp hand) (inject_Z MIN_LENGTH)
   then [Circle ((x1 + x2) / 2, (y1 + y2) / 2)%Z CIRCLE_RADIUS
                (255, 255, 255)%Z FILLED]
   else []).

(** The distance measured on a frame, if it shows a hand. *)
Definition measured (f : frame) : option Q :=
  match multi_hand_landmarks f, capture f with
  | hand :: _, Some shp => Some (fingertip_distance shp hand)
  | _, _ => None
  end.

(** The held value after [frames]: the distance measured on the most recent
    frame with a hand, [init] when there was none. *)
Fixpoint held_distance (init : Q) (frames : list frame) : Q :=
  match frames with
  | [] => init
  | f :: frames' =>
      held_distance (match measured f with Some d => d | None => init end)
                    frames'
  end.

End Measurement.

(** The flash of lines 87-89 when it is red. *)
Definition red_flash (volume_level : Q) (cx cy : Z) : list draw_cmd :=
  if Qltb 1 (Qabs volume_level)
  then [Circle (cx, cy) CIRCLE_RADIUS (0, 0, 255)%Z LINE_THICKNESS]
  else [].

(** Lines 69-74. *)
Definition bar_color (mute : bool) (volume_level : Q) : color :=
  if mute then VOLUME_BAR_COLOR_MUTE
  else if Qltb volume_level 0 then VOLUME_BAR_COLOR_LOW
  else VOLUME_BAR_COLOR_HIGH.

(** What lines 76-84 draw. *)
Definition bar_overlay (mute : bool) (d : Q) : list draw_cmd :=
  [Rectangle (50, 150)%Z (85, 400)%Z (bar_color mute (calculate_volume d))
             LINE_THICKNESS;
   Rectangle (50, py_int (calculate_volume_bar d))%Z (85, 400)%Z
             (bar_color mute (calculate_volume d)) FILLED;
   PutText (str_int (py_int (calculate_volume_percentage d)) ++ "%")
           (40, 450)%Z FONT_HERSHEY_PLAIN FONT_SIZE FONT_COLOR FONT_THICKNESS;
   PutText "Spread your fingers to adjust volume." (20, 30)%Z
           FONT_HERSHEY_SIMPLEX (7 # 10) FONT_COLOR 2;
   PutText "Bring fingertips close to mute." (20, 55)%Z
           FONT_HERSHEY_SIMPLEX (7 # 10) FONT_COLOR 2].

(** Pixel position of the last landmark: [(cx, cy)] after the loop of
    line 43. *)
Definition last_pixel (shp : Z * Z * Z) (hand : list landmark) : point :=
  let '(_, x, y) := last (build_lmList shp hand) (0, 0, 0)%Z in (x, y).

(** The [try] of lines 60-92 around a body that ran to [r], followed by
    [return length]. *)
Definition caught (d : Q) (r : result unit * world) : result Q * world :=
  match r with
  | (Ok _, w) => (Ok d, w)
  | (Raise e, w) =>
      if is_Exception e
      then (Ok d, emit [] [("Error updating volume: " ++ exn_str e)%string] [] w)
      else (Raise e, w)
  end.

(** What lines 148-149 draw for a held distance. *)
Definition indicator_and_message (len : Q) : list draw_cmd :=
  [Circle (40, volume_indicator_y (calculate_volume len))%Z
          HAND_ICON_RADIUS HAND_ICON_COLOR HAND_ICON_THICKNESS;
   PutText (volume_message (calculate_volume len)) (150, 30)%Z
           FONT_HERSHEY_SIMPLEX (7 # 10) HAND_ICON_COLOR 2].

(** ** Concrete inputs for the examples *)

(** Agrees with [math.hypot] whenever [dx*dx + dy*dy] is a perfect square,
    as in every example below. *)
Definition hypot_exact (dx dy : Z) : Q :=
  inject_Z (Z.sqrt (dx * dx + dy * dy)).

Definition lm (x y : Q) : landmark := {| lm_x := x; lm_y := y |}.

(** A hand of 21 landmarks on a 640x480 frame: thumb tip at pixel
    [(100, 120)], index tip at [(100 + 20 * k, 120)], every other landmark
    at the centre [(320, 240)]. *)
Definition hand_spread (k : Z) : list landmark :=
  repeat (lm (1 # 2) (1 # 2)) 4 ++ [lm (5 # 32) (1 # 4)] ++
  repeat (lm (1 # 2) (1 # 2)) 3 ++
  [lm (inject_Z (5 + k) / 32) (1 # 4)] ++
  repeat (lm (1 # 2) (1 # 2)) 12.

Definition healthy_endpoint : endpoint :=
  {| set_reply := fun _ => None; mute_reply := Ok false |}.

Definition failing_endpoint : endpoint :=
  {| set_reply := fun _ => Some (COMError "device removed");
     mute_reply := Ok false |}.

Definition frame_with (hands : list (list landmark)) (v : endpoint) : frame :=
  {| capture := Some (480, 640, 3)%Z; multi_hand_landmarks := hands;
     volume := v; key := (-1)%Z |}.

Definition blank_world : world :=
  {| img := {| shape := (480, 640, 3)%Z; overlay := [] |};
     console := []; set_calls := []; shown := [] |}.

(** ** [main] and the entry point (lines 116-170) *)

Inductive cleanup_call : Type := cap_release | destroyAllWindows.

(** How [main] left its [try]: the exception that escapes it, if any, the
    world at that point, and the calls of the [finally] block. *)
Record ending : Type := {
  uncaught : option exn;
  final : world;
  cleanup : list cleanup_call
}.

(** The world when a new frame has been read (line 132). *)
Definition new_frame (shp : Z * Z * Z) (w : world) : world :=
  {| img := {| shape := shp; overlay := [] |};
     console := console w; set_calls := set_calls w; shown := shown w |}.

(** Lines 147-157 once [length] is settled for the iteration. *)
Definition finish_iteration (f : frame) (s : locals) (w : world)
  : result (locals * bool) * world :=
  (Ok (s, (key f =? 27)%Z),
   snd (imshow (emit (indicator_and_message (length s)) [] [] w))).

Section Main.

Variable hypot : Z -> Z -> Q.

(** The levels a run over [frames] applies: one per frame with a hand. *)
Definition applied_levels (frames : list frame) : list Q :=
  flat_map (fun f => match measured hypot f with
                     | Some d => [calculate_volume d]
                     | None => []
                     end) frames.

(** Lines 126-164 on the frames the camera delivers.  The devices of lines
    117-124 are taken as opened.  [None]: the loop has consumed [frames]
    and is still running. *)
Definition main (frames : list frame) (w : world) : option ending :=
  let finally := [cap_release; destroyAllWindows] in
  match run_loop hypot initial_locals frames w with
  | (Ok (Running _), _) => None
  | (Ok (Stopped _), w') =>
      Some {| uncaught := None; final := w'; cleanup := finally |}
  | (Raise KeyboardInterrupt, w') =>
      Some {| uncaught := None;
              final := snd (print "Exiting gracefully due to user interruption."
                                  w');
              cleanup := finally |}
  | (Raise e, w') =>
      Some {| uncaught := Some e; final := w'; cleanup := finally |}
  end.

(** Lines 166-170. *)
Definition program (frames : list frame) (w : world) : option ending :=
  main frames
    (snd ((print "Welcome to Hand Gesture Volume Control!" ;;
           print "Adjust your computer's volume by spreading your fingers or bringing fingertips close together." ;;
           print "Press 'Esc' key to exit the program.") w)).

End Main.

(** * Properties *)

(** ** Comparisons and the two-point interpolation *)

Lemma Qltb_true (a b : Q) : Qltb a b = true <-> a < b.
Proof.
  unfold Qltb. rewrite negb_true_iff. split; intro H.
  - apply Qnot_le_lt. intro L. apply Qle_bool_iff in L. congruence.
  - destruct (Qle_bool b a) eqn:E; [|reflexivity].
    apply Qle_bool_iff in E. exfalso. apply (Qlt_not_le _ _ H E).
Qed.

Lemma Qltb_false (a b : Q) : Qltb a b = false <-> b <= a.
Proof.
  unfold Qltb. rewrite negb_false_iff. apply Qle_bool_iff.
Qed.

Lemma Qltb_spec (a b : Q) : reflect (a < b) (Qltb a b).
Proof.
  destruct (Qltb a b) eqn:E; constructor.
  - now apply Qltb_true.
  - apply Qltb_false in E. now apply Qle_not_lt.
Qed.

Section TwoPoints.
Variables x0 x1 y0 y1 : Q.
Hypothesis increasing : x0 < x1.

Lemma interp2_left x : x <= x0 -> np_interp x [x0; x1] [y0; y1] == y0.
Proof.
  intro H. unfold np_interp; simpl.
  destruct (Qltb_spec x x0); [reflexivity|].
  destruct (Qltb_spec x x1); [|lra].
  assert (E : x0 == x) by lra.
  apply Qeq_bool_iff in E. rewrite E. reflexivity.
Qed.

Lemma interp2_right x : x1 <= x -> np_interp x [x0; x1] [y0; y1] == y1.
Proof.
  intro H. unfold np_interp; simpl.
  destruct (Qltb_spec x x0); [lra|].
  destruct (Qltb_spec x x1); [lra|reflexivity].
Qed.

Lemma interp2_inside x :
  x0 < x -> x < x1 ->
  np_interp x [x0; x1] [y0; y1] == (y1 - y0) / (x1 - x0) * (x - x0) + y0.
Proof.
  intros H0 H1. unfold np_interp; simpl.
  destruct (Qltb_spec x x0); [lra|].
  destruct (Qltb_spec x x1); [|lra].
  destruct (Qeq_bool x0 x) eqn:E; [|reflexivity].
  apply Qeq_bool_iff in E. lra.
Qed.
End TwoPoints.

Ltac consts :=
  unfold MIN_LENGTH, MAX_LENGTH, MIN_VOLUME, MAX_VOLUME, inject_Z in *.

Ltac slope q :=
  match goal with
  | |- context [?a / ?b * ?c] =>
      let E := fresh "E" in
      assert (E : a / b == q) by (vm_compute; reflexivity);
      rewrite E; clear E
  end.

Lemma calculate_volume_inside d :
  50 < d -> d < 300 -> calculate_volume d == (21 # 250) * (d - 50) - 21.
Proof.
  intros. unfold calculate_volume.
  eapply Qeq_trans; [apply interp2_inside; consts; lra|].
  slope (21 # 250). consts. lra.
Qed.

Lemma calculate_volume_bar_inside d :
  50 < d -> d < 300 -> calculate_volume_bar d == 600 - (59 # 25) * (d - 50).
Proof.
  intros. unfold calculate_volume_bar.
  eapply Qeq_trans; [apply interp2_inside; consts; lra|].
  slope (- (59 # 25)). consts. lra.
Qed.

Lemma calculate_volume_percentage_inside d :
  50 < d -> d < 300 -> calculate_volume_percentage d == (2 # 5) * (d - 50).
Proof.
  intros. unfold calculate_volume_percentage.
  eapply Qeq_trans; [apply interp2_inside; consts; lra|].
  slope (2 # 5). consts. lra.
Qed.

Lemma calculate_volume_low d : d <= 50 -> calculate_volume d == -21.
Proof.
  intro H. unfold calculate_volume.
  eapply Qeq_trans; [apply interp2_left; consts; lra|]. reflexivity.
Qed.

Lemma calculate_volume_high d : 300 <= d -> calculate_volume d == 0.
Proof.
  intro H. unfold calculate_volume.
  eapply Qeq_trans; [apply interp2_right; consts; lra|]. reflexivity.
Qed.

Lemma calculate_volume_range d : -21 <= calculate_volume d <= 0.
Proof.
  destruct (Qlt_le_dec 50 d) as [L|L].
  - destruct (Qlt_le_dec d 300) as [R|R].
    + rewrite (calculate_volume_inside d L R). lra.
    + rewrite (calculate_volume_high d R). lra.
  - rewrite (calculate_volume_low d L). lra.
Qed.

Lemma calculate_volume_bar_low d : d <= 50 -> calculate_volume_bar d == 600.
Proof.
  intro H. unfold calculate_volume_bar.
  eapply Qeq_trans; [apply interp2_left; consts; lra|]. reflexivity.
Qed.

Lemma calculate_volume_bar_high d : 300 <= d -> calculate_volume_bar d == 10.
Proof.
  intro H. unfold calculate_volume_bar.
  eapply Qeq_trans; [apply interp2_right; consts; lra|]. reflexivity.
Qed.

Lemma calculate_volume_bar_range d : 10 <= calculate_volume_bar d <= 600.
Proof.
  destruct (Qlt_le_dec 50 d) as [L|L].
  - destruct (Qlt_le_dec d 300) as [R|R].
    + rewrite (calculate_volume_bar_inside d L R). lra.
    + rewrite (calculate_volume_bar_high d R). lra.
  - rewrite (calculate_volume_bar_low d L). lra.
Qed.

Lemma calculate_volume_percentage_low d :
  d <= 50 -> calculate_volume_percentage d == 0.
Proof.
  intro H. unfold calculate_volume_percentage.
  eapply Qeq_trans; [apply interp2_left; consts; lra|]. reflexivity.
Qed.

Lemma calculate_volume_percentage_high d :
  300 <= d -> calculate_volume_percentage d == 100.
Proof.
  intro H. unfold calculate_volume_percentage.
  eapply Qeq_trans; [apply interp2_right; consts; lra|]. reflexivity.
Qed.

Lemma calculate_volume_percentage_range d :
  0 <= calculate_volume_percentage d <= 100.
Proof.
  destruct (Qlt_le_dec 50 d) as [L|L].
  - destruct (Qlt_le_dec d 300) as [R|R].
    + rewrite (calculate_volume_percentage_inside d L R). lra.
    + rewrite (calculate_volume_percentage_high d R). lra.
  - rewrite (calculate_volume_percentage_low d L). lra.
Qed.

(** C1: [calculate_volume] is the clamped linear interpolation of the
    distance from [50, 300] to [-21, 0]: it is [-21] for every [d <= 50],
    [0] for every [d >= 300], and on [(50, 300)] it coincides with a line of
    positive slope through [(50, -21)] and [(300, 0)], hence is strictly
    increasing there. *)
Theorem calculate_volume_clamped_linear :
  (forall d, d <= 50 -> calculate_volume d == -21) /\
  (forall d, 300 <= d -> calculate_volume d == 0) /\
  (exists a b : Q,
      0 < a /\ a * 50 + b == -21 /\ a * 300 + b == 0 /\
      forall d, 50 < d -> d < 300 -> calculate_volume d == a * d + b) /\
  (forall d1 d2, 50 < d1 -> d1 < d2 -> d2 < 300 ->
                 calculate_volume d1 < calculate_volume d2).
Proof.
  split; [exact calculate_volume_low|].
  split; [exact calculate_volume_high|].
  split.
  - exists (21 # 250), (- (126 # 5)).
    repeat split; try reflexivity.
    intros d L R. rewrite (calculate_volume_inside d L R). lra.
  - intros d1 d2 H1 H12 H2.
    rewrite (calculate_volume_inside d1), (calculate_volume_inside d2); lra.
Qed.

Lemma calculate_volume_clamped_linear_witness :
  calculate_volume 40 == -21 /\ calculate_volume 320 == 0 /\
  calculate_volume 100 < calculate_volume 200.
Proof.
  destruct calculate_volume_clamped_linear as (L & H & _ & I).
  split; [apply L; lra|].
  split; [apply H; lra|].
  apply I; lra.
Defined.

(** C6: [calculate_volume_bar] is [600] at distance [50] and [10] at
    distance [300]; on [(50, 300)] it coincides with a line of negative slope
    through these two points, is strictly decreasing, stays strictly between
    [10] and [600], and reaches every value strictly between them. *)
Theorem calculate_volume_bar_decreasing_linear :
  calculate_volume_bar 50 == 600 /\
  calculate_volume_bar 300 == 10 /\
  (exists a b : Q,
      a < 0 /\ a * 50 + b == 600 /\ a * 300 + b == 10 /\
      forall d, 50 < d -> d < 300 -> calculate_volume_bar d == a * d + b) /\
  (forall d1 d2, 50 < d1 -> d1 < d2 -> d2 < 300 ->
                 calculate_volume_bar d2 < calculate_volume_bar d1) /\
  (forall d, 50 < d -> d < 300 ->
             10 < calculate_volume_bar d /\ calculate_volume_bar d < 600) /\
  (forall y, 10 < y -> y < 600 ->
             exists d, 50 < d /\ d < 300 /\ calculate_volume_bar d == y).
Proof.
  split; [apply calculate_volume_bar_low; lra|].
  split; [apply calculate_volume_bar_high; lra|].
  split; [|split; [|split]].
  - exists (- (59 # 25)), 718.
    repeat split; try reflexivity.
    intros d L R. rewrite (calculate_volume_bar_inside d L R). lra.
  - intros d1 d2 H1 H12 H2.
    rewrite (calculate_volume_bar_inside d1), (calculate_volume_bar_inside d2);
      lra.
  - intros d L R. rewrite (calculate_volume_bar_inside d L R). lra.
  - intros y L R. exists (50 + (25 # 59) * (600 - y)).
    assert (50 < 50 + (25 # 59) * (600 - y)) by lra.
    assert (50 + (25 # 59) * (600 - y) < 300) by lra.
    repeat split; trivial.
    rewrite calculate_volume_bar_inside by trivial. lra.
Qed.

Lemma calculate_volume_bar_decreasing_linear_witness :
  calculate_volume_bar 200 < calculate_volume_bar 100 /\
  (10 < calculate_volume_bar 100 /\ calculate_volume_bar 100 < 600) /\
  exists d, 50 < d /\ d < 300 /\ calculate_volume_bar d == 128.
Proof.
  destruct calculate_volume_bar_decreasing_linear as (_ & _ & _ & D & I & S).
  split; [apply D; lra|].
  split; [apply I; lra|].
  apply S; lra.
Defined.

(** C7: [calculate_volume_percentage] is [0] at distance [50] and [100]
    at distance [300]; on [(50, 300)] it coincides with a line of positive
    slope through these two points, is strictly increasing, stays strictly
    between [0] and [100], and reaches every value strictly between them. *)
Theorem calculate_volume_percentage_increasing_linear :
  calculate_volume_percentage 50 == 0 /\
  calculate_volume_percentage 300 == 100 /\
  (exists a b : Q,
      0 < a /\ a * 50 + b == 0 /\ a * 300 + b == 100 /\
      forall d, 50 < d -> d < 300 ->
                calculate_volume_percentage d == a * d + b) /\
  (forall d1 d2, 50 < d1 -> d1 < d2 -> d2 < 300 ->
                 calculate_volume_percentage d1 < calculate_volume_percentage d2) /\
  (forall d, 50 < d -> d < 300 ->
             0 < calculate_volume_percentage d /\
             calculate_volume_percentage d < 100) /\
  (forall y, 0 < y -> y < 100 ->
             exists d, 50 < d /\ d < 300 /\ calculate_volume_percentage d == y).
Proof.
  split; [apply calculate_volume_percentage_low; lra|].
  split; [apply calculate_volume_percentage_high; lra|].
  split; [|split; [|split]].
  - exists (2 # 5), (- 20).
    repeat split; try reflexivity.
    intros d L R. rewrite (calculate_volume_percentage_inside d L R). lra.
  - intros d1 d2 H1 H12 H2.
    rewrite (calculate_volume_percentage_inside d1),
            (calculate_volume_percentage_inside d2); lra.
  - intros d L R. rewrite (calculate_volume_percentage_inside d L R). lra.
  - intros y L R. exists (50 + (5 # 2) * y).
    assert (50 < 50 + (5 # 2) * y) by lra.
    assert (50 + (5 # 2) * y < 300) by lra.
    repeat split; trivial.
    rewrite calculate_volume_percentage_inside by trivial. lra.
Qed.

Lemma calculate_volume_percentage_increasing_linear_witness :
  calculate_volume_percentage 100 < calculate_volume_percentage 200 /\
  (0 < calculate_volume_percentage 100 /\
   calculate_volume_percentage 100 < 100) /\
  exists d, 50 < d /\ d < 300 /\ calculate_volume_percentage d == 40.
Proof.
  destruct calculate_volume_percentage_increasing_linear
    as (_ & _ & _ & D & I & S).
  split; [apply D; lra|].
  split; [apply I; lra|].
  apply S; lra.
Defined.

Lemma indicator_interp_inside v :
  -21 <= v -> v <= 0 -> indicator_interp v == 150 - (250 # 21) * v.
Proof.
  intros L R. unfold indicator_interp.
  destruct (Qlt_le_dec (-21) v) as [L'|L'].
  - destruct (Qlt_le_dec v 0) as [R'|R'].
    + eapply Qeq_trans; [apply interp2_inside; consts; lra|].
      slope (- (250 # 21)). consts. lra.
    + eapply Qeq_trans; [apply interp2_right; consts; lra|]. lra.
  - eapply Qeq_trans; [apply interp2_left; consts; lra|]. lra.
Qed.

Lemma py_int_nonneg x : 0 <= x -> py_int x = Qfloor x.
Proof.
  intro H. unfold py_int. destruct (Qltb_spec x 0); [lra|reflexivity].
Qed.

(** C8, amended: the row computed by [display_volume_indicator] is [400]
    at level [-21] and [150] at level [0], and on [[-21, 0]] it never
    increases with the level; it is the interpolated value before [int] that
    is strictly decreasing. *)
Theorem indicator_position_nonincreasing :
  volume_indicator_y (-21) = 400%Z /\
  volume_indicator_y 0 = 150%Z /\
  (forall v1 v2, -21 <= v1 -> v1 <= v2 -> v2 <= 0 ->
                 (volume_indicator_y v2 <= volume_indicator_y v1)%Z) /\
  (forall v1 v2, -21 <= v1 -> v1 < v2 -> v2 <= 0 ->
                 indicator_interp v2 < indicator_interp v1).
Proof.
  split; [reflexivity|]. split; [reflexivity|]. split.
  - intros v1 v2 H1 H12 H2.
    change (py_int (indicator_interp v2) <= py_int (indicator_interp v1))%Z.
    assert (E1 := indicator_interp_inside v1).
    assert (E2 := indicator_interp_inside v2).
    rewrite !py_int_nonneg by (rewrite ?E1, ?E2; lra).
    apply Qfloor_resp_le. rewrite E1, E2; lra.
  - intros v1 v2 H1 H12 H2.
    rewrite (indicator_interp_inside v1), (indicator_interp_inside v2); lra.
Qed.

Lemma indicator_position_nonincreasing_witness :
  (volume_indicator_y (-8) <= volume_indicator_y (-10))%Z /\
  indicator_interp (-8) < indicator_interp (-10).
Proof.
  destruct indicator_position_nonincreasing as (_ & _ & W & S).
  split; [apply W; lra | apply S; lra].
Defined.

(** C8 as stated fails: the levels [-10.01] and [-10] are drawn on the same
    row, so the position after [int] is not strictly decreasing. *)
Lemma indicator_position_not_strictly_decreasing :
  (-21 <= - (1001 # 100) /\ - (1001 # 100) < -10 /\ -10 <= 0) /\
  volume_indicator_y (- (1001 # 100)) = 269%Z /\
  volume_indicator_y (-10) = 269%Z /\
  ~ (forall v1 v2, -21 <= v1 -> v1 < v2 -> v2 <= 0 ->
                   (volume_indicator_y v2 < volume_indicator_y v1)%Z).
Proof.
  split; [repeat split; lra|].
  split; [reflexivity|]. split; [reflexivity|].
  intro H. specialize (H (- (1001 # 100)) (-10)).
  assert (C : (volume_indicator_y (-10) < volume_indicator_y (- (1001 # 100)))%Z)
    by (apply H; lra).
  vm_compute in C. discriminate C.
Qed.

(** C9: [display_volume_message] draws exactly one of three distinct
    messages: the high one when the level is strictly above [-5], the
    moderate one when it is strictly above [-12] but not above [-5], the low
    one otherwise; at [-5] the message is not the high one and at [-12] it is
    not the moderate one. *)
Theorem volume_message_bands :
  (forall v, -5 < v -> volume_message v = MSG_HIGH) /\
  (forall v, -12 < v -> v <= -5 -> volume_message v = MSG_MODERATE) /\
  (forall v, v <= -12 -> volume_message v = MSG_LOW) /\
  (MSG_HIGH <> MSG_MODERATE /\ MSG_MODERATE <> MSG_LOW /\ MSG_HIGH <> MSG_LOW) /\
  volume_message (-5) <> MSG_HIGH /\
  volume_message (-12) <> MSG_MODERATE /\
  (forall v w, overlay (img (snd (display_volume_message v w))) =
               overlay (img w) ++
               [PutText (volume_message v) (150, 30)%Z FONT_HERSHEY_SIMPLEX
                        (7 # 10) HAND_ICON_COLOR 2]).
Proof.
  repeat split; try discriminate.
  - intros v H. unfold volume_message.
    destruct (Qltb_spec (-5) v); [reflexivity|lra].
  - intros v L R. unfold volume_message.
    destruct (Qltb_spec (-5) v); [lra|].
    destruct (Qltb_spec (-12) v); [reflexivity|lra].
  - intros v H. unfold volume_message.
    destruct (Qltb_spec (-5) v); [lra|].
    destruct (Qltb_spec (-12) v); [lra|reflexivity].
Qed.

Lemma volume_message_bands_witness :
  volume_message (-4) = MSG_HIGH /\ volume_message (-8) = MSG_MODERATE /\
  volume_message (-15) = MSG_LOW.
Proof.
  destruct volume_message_bands as (H & M & L & _).
  split; [apply H; lra|]. split; [apply M; lra | apply L; lra].
Defined.

(** ** Effects accumulate *)

Lemma emit_nil w : emit [] [] [] w = w.
Proof.
  destruct w as [[shp ov] c s sh]. unfold emit; simpl.
  now rewrite !app_nil_r.
Qed.

Lemma emit_emit d1 p1 c1 d2 p2 c2 w :
  emit d2 p2 c2 (emit d1 p1 c1 w) = emit (d1 ++ d2) (p1 ++ p2) (c1 ++ c2) w.
Proof.
  unfold emit; simpl. now rewrite !app_assoc.
Qed.

Lemma draw_emit d w : draw d w = (Ok tt, emit [d] [] [] w).
Proof.
  unfold draw, emit. now rewrite !app_nil_r.
Qed.

Lemma print_emit line w : print line w = (Ok tt, emit [] [line] [] w).
Proof.
  unfold print, emit. destruct w as [[shp ov] c s sh]; simpl.
  now rewrite !app_nil_r.
Qed.

Lemma SetMasterVolumeLevel_emit volume level w :
  SetMasterVolumeLevel volume level w =
  (match set_reply volume level with None => Ok tt | Some e => Raise e end,
   emit [] [] [level] w).
Proof.
  unfold SetMasterVolumeLevel, emit.
  destruct w as [[shp ov] c s sh]; simpl. rewrite !app_nil_r.
  now destruct (set_reply volume level).
Qed.

Lemma bind_ok {A B} (m : M A) (k : A -> M B) w a w' :
  m w = (Ok a, w') -> bind m k w = k a w'.
Proof. intro E. unfold bind. now rewrite E. Qed.

Lemma bind_raise {A B} (m : M A) (k : A -> M B) w e w' :
  m w = (Raise e, w') -> bind m k w = (Raise e, w').
Proof. intro E. unfold bind. now rewrite E. Qed.

Lemma bind_assoc {A B C} (m : M A) (k : A -> M B) (k' : B -> M C) w :
  bind (bind m k) k' w = bind m (fun a => bind (k a) k') w.
Proof. unfold bind. now destruct (m w) as [[a|e] w']. Qed.

Lemma bind_draw {B} d (k : unit -> M B) w :
  bind (draw d) k w = k tt (emit [d] [] [] w).
Proof. apply bind_ok, draw_emit. Qed.

Lemma never_positive d : Qltb 0 (calculate_volume d) = false.
Proof. apply Qltb_false. apply calculate_volume_range. Qed.

Section Effects.

Variable hypot : Z -> Z -> Q.

Lemma apply_and_draw_run d cx cy volume w :
  apply_and_draw d cx cy volume w =
  match set_reply volume (calculate_volume d), mute_reply volume with
  | Some e, _ => (Raise e, emit [] [] [calculate_volume d] w)
  | None, Raise e => (Raise e, emit [] [] [calculate_volume d] w)
  | None, Ok mute =>
      (Ok tt, emit (bar_overlay mute d ++ red_flash (calculate_volume d) cx cy)
                   [] [calculate_volume d] w)
  end.
Proof.
  unfold apply_and_draw.
  unfold bind at 1. rewrite SetMasterVolumeLevel_emit.
  destruct (set_reply volume (calculate_volume d)) as [e|]; [reflexivity|].
  unfold bind at 1, GetMute.
  destruct (mute_reply volume) as [mute|e]; [|reflexivity].
  rewrite !bind_draw, !emit_emit. 
  fold (bar_color mute (calculate_volume d)).
  unfold red_flash. rewrite never_positive.
  destruct (Qltb 1 (Qabs (calculate_volume d))).
  - rewrite draw_emit, emit_emit. reflexivity.
  - unfold ret. now rewrite !app_nil_r.
Qed.


Lemma enumerate_from_length {A} (l : list A) n :
  List.length (enumerate_from n l) = List.length l.
Proof.
  revert n. induction l as [|a l IH]; intro n; simpl; [reflexivity|].
  now rewrite IH.
Qed.

Lemma build_lmList_length shp hand :
  List.length (build_lmList shp hand) = List.length hand.
Proof.
  destruct shp as [[h w] c]. unfold build_lmList, enumerate.
  now rewrite length_map, enumerate_from_length.
Qed.

Lemma bind_ret {A B} (a : A) (k : A -> M B) w : bind (ret a) k w = k a w.
Proof. reflexivity. Qed.

Lemma index_in_range {A B} (l : list A) i (d : A) (k : A -> M B) w :
  (i < List.length l)%nat -> bind (index l i) k w = k (nth i l d) w.
Proof.
  intro H. unfold index. now rewrite (nth_error_nth' l d H).
Qed.

Lemma process_hand_landmarks_run hand volume w :
  (8 < List.length hand)%nat ->
  process_hand_landmarks hypot hand volume w =
  let shp := shape (img w) in
  let d := fingertip_distance hypot shp hand in
  caught d (apply_and_draw d (fst (last_pixel shp hand))
                           (snd (last_pixel shp hand)) volume
                           (emit (fingertip_marks hypot shp hand) [] [] w)).
Proof.
  intro H. unfold process_hand_landmarks.
  unfold bind at 1, get_img.
  assert (L := build_lmList_length (shape (img w)) hand).
  cbv zeta. unfold fingertip_marks, fingertip_distance, last_pixel, pixel.
  destruct (build_lmList (shape (img w)) hand) as [|e0 l] eqn:E;
    [simpl in L; lia|].
  rewrite <- E in *. clear E e0 l.
  destruct (last _ _) as [[il cx] cy].
  rewrite (index_in_range _ 4 (0, 0, 0)%Z) by lia.
  destruct (nth 4 _ _) as [[i4 x1] y1].
  rewrite (index_in_range _ 8 (0, 0, 0)%Z) by lia.
  destruct (nth 8 _ _) as [[i8 x2] y2].
  rewrite !bind_draw, !emit_emit. simpl app.
  destruct (Qltb (hypot (x2 - x1) (y2 - y1)) (inject_Z MIN_LENGTH)).
  - rewrite bind_draw, emit_emit. simpl app. simpl fst. simpl snd.
    unfold bind, try_except, caught.
    destruct (apply_and_draw _ _ _ _ _) as [[[]|e] w2]; [reflexivity|].
    destruct (is_Exception e); [|reflexivity].
    now rewrite print_emit.
  - rewrite bind_ret. simpl fst. simpl snd.
    unfold bind, try_except, caught.
    destruct (apply_and_draw _ _ _ _ _) as [[[]|e] w2]; [reflexivity|].
    destruct (is_Exception e); [|reflexivity].
    now rewrite print_emit.
Qed.


Lemma index_out_of_range {A B} (l : list A) i (k : A -> M B) w :
  (List.length l <= i)%nat ->
  bind (index l i) k w = (Raise (IndexError "list index out of range"), w).
Proof.
  intro H. unfold index.
  assert (E : nth_error l i = None) by now apply nth_error_None.
  now rewrite E.
Qed.

Lemma process_hand_landmarks_short hand volume w :
  (List.length hand <= 8)%nat ->
  exists e, process_hand_landmarks hypot hand volume w = (Raise e, w).
Proof.
  intro H. unfold process_hand_landmarks.
  unfold bind at 1, get_img.
  assert (L := build_lmList_length (shape (img w)) hand).
  cbv zeta.
  destruct (build_lmList (shape (img w)) hand) as [|e0 l] eqn:E.
  - eexists; reflexivity.
  - rewrite <- E in *. clear E e0 l.
    destruct (last _ _) as [[il cx] cy].
    destruct (Nat.lt_ge_cases 4 (List.length hand)) as [H4|H4].
    + rewrite (index_in_range _ 4 (0, 0, 0)%Z) by lia.
      destruct (nth 4 _ _) as [[i4 x1] y1].
      rewrite index_out_of_range by lia. eexists; reflexivity.
    + rewrite index_out_of_range by lia. eexists; reflexivity.
Qed.

Lemma process_hand_landmarks_returns hand volume w d w' :
  process_hand_landmarks hypot hand volume w = (Ok d, w') ->
  d = fingertip_distance hypot (shape (img w)) hand.
Proof.
  intro E.
  destruct (Nat.lt_ge_cases 8 (List.length hand)) as [H|H].
  - rewrite process_hand_landmarks_run in E by trivial. cbv zeta in E.
    unfold caught in E.
    destruct (apply_and_draw _ _ _ _ _) as [[[]|e] w2].
    + now inversion E.
    + destruct (is_Exception e); now inversion E.
  - destruct (process_hand_landmarks_short hand volume w H) as [e E'].
    congruence.
Qed.

(** Everything [process_hand_landmarks] does to the world, for any hand. *)
Lemma process_hand_landmarks_effects hand volume w :
  exists draws lines levels,
    snd (process_hand_landmarks hypot hand volume w) =
      emit draws lines levels w /\
    Forall (fun v => -21 <= v /\ v <= 0) levels /\
    (forall ctr r c, In (Circle ctr r c LINE_THICKNESS) draws ->
                     c = (0, 0, 255)%Z).
Proof.
  destruct (Nat.lt_ge_cases 8 (List.length hand)) as [H|H].
  - rewrite process_hand_landmarks_run by trivial. cbv zeta.
    set (shp := shape (img w)).
    set (d := fingertip_distance hypot shp hand).
    assert (R := calculate_volume_range d).
    assert (Marks : forall ctr r c,
               ~ In (Circle ctr r c LINE_THICKNESS)
                    (fingertip_marks hypot shp hand)).
    { intros ctr r c. unfold fingertip_marks.
      destruct (pixel shp hand 4) as [x1 y1].
      destruct (pixel shp hand 8) as [x2 y2].
      destruct (Qltb _ _); simpl; intuition discriminate. }
    assert (Only : forall extra ctr r c,
               In (Circle ctr r c LINE_THICKNESS)
                  (fingertip_marks hypot shp hand ++ extra) ->
               In (Circle ctr r c LINE_THICKNESS) extra).
    { intros extra ctr r c I. apply in_app_or in I.
      destruct I as [I|I]; [now apply Marks in I|exact I]. }
    rewrite apply_and_draw_run. unfold caught.
    destruct (set_reply volume (calculate_volume d)) as [e|];
      [|destruct (mute_reply volume) as [mute|e]];
      try destruct (is_Exception e); simpl snd; rewrite ?emit_emit;
      do 3 eexists; (split; [reflexivity|]);
      (split; [simpl; repeat constructor; apply R|]);
      intros ctr r c I; apply Only in I; simpl in I;
      try contradiction.
    repeat (destruct I as [I|I]; [discriminate I|]).
    unfold red_flash in I. destruct (Qltb 1 _); simpl in I; [|easy].
    destruct I as [I|[]]. now inversion I.
  - destruct (process_hand_landmarks_short hand volume w H) as [e E].
    rewrite E. exists [], [], []. simpl snd. rewrite emit_nil.
    split; [reflexivity|]. split; [constructor|]. intros ? ? ? [].
Qed.


Lemma loop_body_no_hand s f w shp :
  capture f = Some shp ->
  multi_hand_landmarks f = [] ->
  exists w',
    loop_body hypot s f w = (Ok (s, (key f =? 27)%Z), w') /\
    overlay (img w') = indicator_and_message (length s) /\
    shown w' = shown w ++ [img w'] /\
    set_calls w' = set_calls w.
Proof.
  intros C H. unfold loop_body, cap_read, detect_and_process.
  rewrite C, H. unfold bind at 1. rewrite bind_ret.
  unfold display_volume_indicator, display_volume_message.
  rewrite !bind_draw, !emit_emit.
  destruct (handLms s); unfold display_hand_icon; rewrite bind_ret;
    unfold bind, imshow, ret; eexists; (split; [reflexivity|]);
    simpl; rewrite ?app_nil_r; auto.
Qed.

Lemma loop_body_length s f w s' q w' :
  loop_body hypot s f w = (Ok (s', q), w') ->
  length s' = match measured hypot f with
              | Some d => d
              | None => length s
              end.
Proof.
  unfold loop_body, cap_read, measured, detect_and_process.
  destruct (capture f) as [shp|];
    [|destruct (multi_hand_landmarks f); discriminate].
  unfold bind at 1.
  destruct (multi_hand_landmarks f) as [|hand others].
  - rewrite bind_ret.
    unfold display_volume_indicator, display_volume_message.
    rewrite !bind_draw.
    destruct (handLms s); unfold display_hand_icon; rewrite bind_ret;
      unfold bind, imshow, ret; intro E; now inversion E.
  - rewrite !bind_assoc, bind_draw.
    unfold bind at 1. unfold bind at 1.
    destruct (process_hand_landmarks hypot hand (volume f) _)
      as [[len|e] w1] eqn:P; [|discriminate].
    apply process_hand_landmarks_returns in P. simpl in P.
    unfold ret at 1. cbv beta iota.
    unfold display_volume_indicator, display_volume_message.
    rewrite !bind_draw. cbn [handLms length].
    unfold display_hand_icon. rewrite bind_ret.
    unfold bind, imshow, ret. intro E. inversion E. subst. reflexivity.
Qed.

Lemma run_loop_holds frames : forall s0 w0 s w,
  run_loop hypot s0 frames w0 = (Ok (Running s), w) ->
  length s = held_distance hypot (length s0) frames.
Proof.
  induction frames as [|f frames IH]; intros s0 w0 s w E.
  - simpl in E. unfold ret in E. now inversion E.
  - simpl in E. unfold bind in E.
    destruct (loop_body hypot s0 f w0) as [[[s1 q]|e] w1] eqn:B;
      [|discriminate].
    simpl in E. destruct q; [discriminate|].
    apply IH in E. apply loop_body_length in B.
    simpl. now rewrite <- B.
Qed.

Lemma held_distance_app init pre post :
  held_distance hypot init (pre ++ post) =
  held_distance hypot (held_distance hypot init pre) post.
Proof.
  revert init. induction pre as [|f pre IH]; intro init; simpl;
    [reflexivity|apply IH].
Qed.

Lemma held_distance_no_hand init frames :
  Forall (fun f => multi_hand_landmarks f = []) frames ->
  held_distance hypot init frames = init.
Proof.
  intro H. revert init. induction H as [|f frames Hf _ IH]; intro init; simpl.
  - reflexivity.
  - unfold measured at 1. rewrite Hf. apply IH.
Qed.

End Effects.

(** C2: for every distance the volume level lies in [[-21, 0]], the
    percentage in [[0, 100]] and the bar position in [[10, 600]]; every value
    [process_hand_landmarks] passes to [SetMasterVolumeLevel] lies in
    [[-21, 0]], and on a hand with landmarks 4 and 8 it passes exactly one,
    the volume level of the measured distance. *)
Theorem derived_quantities_in_range (hypot : Z -> Z -> Q) :
  (forall d,
      (-21 <= calculate_volume d /\ calculate_volume d <= 0) /\
      (0 <= calculate_volume_percentage d /\
       calculate_volume_percentage d <= 100) /\
      (10 <= calculate_volume_bar d /\ calculate_volume_bar d <= 600)) /\
  (forall hand volume w,
      exists levels,
        set_calls (snd (process_hand_landmarks hypot hand volume w)) =
          set_calls w ++ levels /\
        Forall (fun v => -21 <= v /\ v <= 0) levels) /\
  (forall hand volume w,
      (8 < List.length hand)%nat ->
      set_calls (snd (process_hand_landmarks hypot hand volume w)) =
        set_calls w ++
        [calculate_volume (fingertip_distance hypot (shape (img w)) hand)]).
Proof.
  split; [|split].
  - intro d. split; [apply calculate_volume_range|].
    split; [apply calculate_volume_percentage_range
           |apply calculate_volume_bar_range].
  - intros hand volume w.
    destruct (process_hand_landmarks_effects hypot hand volume w)
      as (draws & lines & levels & E & R & _).
    exists levels. rewrite E. split; [reflexivity|exact R].
  - intros hand volume w H.
    rewrite process_hand_landmarks_run by trivial. cbv zeta.
    rewrite apply_and_draw_run. unfold caught.
    destruct (set_reply volume _) as [e|];
      [|destruct (mute_reply volume) as [mute|e]];
      try destruct (is_Exception e); simpl snd; rewrite ?emit_emit;
      simpl; now rewrite ?app_nil_r.
Qed.

Lemma derived_quantities_in_range_witness :
  set_calls (snd (process_hand_landmarks hypot_exact (hand_spread 10)
                    healthy_endpoint blank_world)) =
  [calculate_volume
     (fingertip_distance hypot_exact (480, 640, 3)%Z (hand_spread 10))].
Proof.
  apply (proj2 (proj2 (derived_quantities_in_range hypot_exact))
           (hand_spread 10) healthy_endpoint blank_world).
  simpl. lia.
Defined.

(** C3: when the loop is still running after [frames] and the next frame
    shows no hand, the iteration completes, leaves [length] untouched and
    draws the indicator and the message from the held distance: the distance
    measured on the most recent frame with a hand, and [MAX_LENGTH] (not
    zero) when no frame had one. *)
Theorem no_hand_reuses_held_distance (hypot : Z -> Z -> Q)
    (frames : list frame) (f : frame) (s : locals) (w0 w : world)
    (shp : Z * Z * Z) :
  run_loop hypot initial_locals frames w0 = (Ok (Running s), w) ->
  multi_hand_landmarks f = [] ->
  capture f = Some shp ->
  let held := held_distance hypot (inject_Z MAX_LENGTH) frames in
  (exists w',
      loop_body hypot s f w = (Ok (s, (key f =? 27)%Z), w') /\
      overlay (img w') = indicator_and_message held) /\
  length s = held /\
  (forall pre g rest hand others shp_g,
      frames = pre ++ g :: rest ->
      multi_hand_landmarks g = hand :: others ->
      capture g = Some shp_g ->
      Forall (fun f' => multi_hand_landmarks f' = []) rest ->
      held = fingertip_distance hypot shp_g hand) /\
  (Forall (fun f' => multi_hand_landmarks f' = []) frames ->
   held = inject_Z MAX_LENGTH).
Proof.
  intros R H C held.
  assert (L : length s = held) by exact (run_loop_holds hypot _ _ _ _ _ R).
  split; [|split; [exact L|split]].
  - destruct (loop_body_no_hand hypot s f w shp C H) as (w' & B & O & _).
    exists w'. split; [exact B|]. now rewrite O, L.
  - intros pre g rest hand others shp_g F Hg Cg N. unfold held.
    rewrite F, held_distance_app. simpl.
    rewrite held_distance_no_hand by exact N.
    unfold measured. now rewrite Hg, Cg.
  - intro N. unfold held. now apply held_distance_no_hand.
Qed.

Lemma no_hand_reuses_held_distance_witness :
  100 = held_distance hypot_exact (inject_Z MAX_LENGTH)
          [frame_with [hand_spread 5] healthy_endpoint].
Proof.
  pose (frames := [frame_with [hand_spread 5] healthy_endpoint]).
  pose (r := run_loop hypot_exact initial_locals frames blank_world).
  assert (R : run_loop hypot_exact initial_locals frames blank_world =
              (Ok (Running {| length := 100;
                              handLms := Some (hand_spread 5) |}), snd r))
    by (vm_compute; reflexivity).
  exact (proj1 (proj2 (no_hand_reuses_held_distance hypot_exact frames
                         (frame_with [] healthy_endpoint) _ _ _
                         (480, 640, 3)%Z R eq_refl eq_refl))).
Defined.

(** C4, amended: on a detected hand, when [SetMasterVolumeLevel] raises an
    exception that derives from [Exception], [process_hand_landmarks] does
    not raise: it returns the measured distance, prints one line with the
    error, and the frame carries the fingertip marks drawn before the [try]
    and nothing of what follows the failed call. *)
Theorem apply_failure_is_caught (hypot : Z -> Z -> Q)
    (hand : list landmark) (volume : endpoint) (w : world) (e : exn) :
  (8 < List.length hand)%nat ->
  let shp := shape (img w) in
  let d := fingertip_distance hypot shp hand in
  set_reply volume (calculate_volume d) = Some e ->
  is_Exception e = true ->
  process_hand_landmarks hypot hand volume w =
  (Ok d,
   emit (fingertip_marks hypot shp hand)
        [("Error updating volume: " ++ exn_str e)%string]
        [calculate_volume d] w).
Proof.
  intros H shp d S X.
  rewrite process_hand_landmarks_run by trivial. cbv zeta.
  fold shp. fold d. rewrite apply_and_draw_run, S. unfold caught.
  rewrite X, !emit_emit. simpl. now rewrite !app_nil_r.
Qed.

Lemma apply_failure_is_caught_witness :
  process_hand_landmarks hypot_exact (hand_spread 10) failing_endpoint
    blank_world =
  (Ok (fingertip_distance hypot_exact (480, 640, 3)%Z (hand_spread 10)),
   emit (fingertip_marks hypot_exact (480, 640, 3)%Z (hand_spread 10))
        ["Error updating volume: device removed"%string]
        [calculate_volume
           (fingertip_distance hypot_exact (480, 640, 3)%Z (hand_spread 10))]
        blank_world).
Proof.
  apply (apply_failure_is_caught hypot_exact (hand_spread 10)
           failing_endpoint blank_world (COMError "device removed")).
  - simpl. lia.
  - reflexivity.
  - reflexivity.
Defined.

(** C4 as stated fails: [except Exception] does not cover every exception.
    When [SetMasterVolumeLevel] raises [KeyboardInterrupt] on a hand of 21
    landmarks, [process_hand_landmarks] raises it in turn and prints
    nothing. *)
Lemma apply_failure_interrupt_not_caught :
  let volume := {| set_reply := fun _ => Some KeyboardInterrupt;
                   mute_reply := Ok false |} in
  let r := process_hand_landmarks hypot_exact (hand_spread 10) volume
             blank_world in
  (8 < List.length (hand_spread 10))%nat /\
  set_reply volume
    (calculate_volume
       (fingertip_distance hypot_exact (480, 640, 3)%Z (hand_spread 10))) =
    Some KeyboardInterrupt /\
  fst r = Raise KeyboardInterrupt /\
  console (snd r) = [] /\
  ~ (forall (hypot : Z -> Z -> Q) (hand : list landmark) (volume : endpoint)
            (w : world) (e : exn),
        (8 < List.length hand)%nat ->
        set_reply volume
          (calculate_volume
             (fingertip_distance hypot (shape (img w)) hand)) = Some e ->
        exists w',
          process_hand_landmarks hypot hand volume w =
          (Ok (fingertip_distance hypot (shape (img w)) hand), w')).
Proof.
  cbv zeta.
  split; [simpl; lia|]. split; [reflexivity|].
  split; [vm_compute; reflexivity|]. split; [vm_compute; reflexivity|].
  intro H.
  destruct (H hypot_exact (hand_spread 10)
              {| set_reply := fun _ => Some KeyboardInterrupt;
                 mute_reply := Ok false |}
              blank_world KeyboardInterrupt) as [w' E].
  - simpl. lia.
  - reflexivity.
  - vm_compute in E. discriminate E.
Qed.

(** C5, evaluated on the code: over two frames the fingers spread from 100
    to 200 pixels and the level applied rises from [-16.8] to [-8.4], of
    magnitude above 1; the flash drawn on the second frame is red and no green
    flash is drawn. *)
Theorem flash_red_while_volume_rises :
  let frames := [frame_with [hand_spread 5] healthy_endpoint;
                 frame_with [hand_spread 10] healthy_endpoint] in
  let w := snd (run_loop hypot_exact initial_locals frames blank_world) in
  (exists v1 v2,
      set_calls w = [v1; v2] /\ v1 == - (84 # 5) /\ v2 == - (42 # 5) /\
      v1 < v2 /\ 1 < Qabs v2) /\
  (exists first second,
      shown w = [first; second] /\
      In (Circle (320, 240)%Z CIRCLE_RADIUS (0, 0, 255)%Z LINE_THICKNESS)
         (overlay second) /\
      ~ In (Circle (320, 240)%Z CIRCLE_RADIUS (0, 255, 0)%Z LINE_THICKNESS)
           (overlay second)).
Proof.
  split.
  - do 2 eexists. split; [vm_compute; reflexivity|].
    repeat split; vm_compute; reflexivity.
  - do 2 eexists. split; [vm_compute; reflexivity|]. split.
    + vm_compute. intuition.
    + vm_compute. intuition discriminate.
Qed.

(** C10: [calculate_volume] is never positive, so every outlined circle
    [process_hand_landmarks] draws, the flash being the only one, is red
    [(0, 0, 255)]; on a run that reaches it the flash is drawn at the last
    landmark exactly when the level has magnitude above 1. *)
Theorem flash_circle_is_always_red (hypot : Z -> Z -> Q) :
  (forall d, ~ 0 < calculate_volume d) /\
  (forall hand volume w,
      exists draws lines levels,
        snd (process_hand_landmarks hypot hand volume w) =
          emit draws lines levels w /\
        forall ctr r c, In (Circle ctr r c LINE_THICKNESS) draws ->
                        c = (0, 0, 255)%Z) /\
  (forall hand volume w mute,
      (8 < List.length hand)%nat ->
      let shp := shape (img w) in
      let d := fingertip_distance hypot shp hand in
      set_reply volume (calculate_volume d) = None ->
      mute_reply volume = Ok mute ->
      process_hand_landmarks hypot hand volume w =
      (Ok d,
       emit (fingertip_marks hypot shp hand ++ bar_overlay mute d ++
             if Qltb 1 (Qabs (calculate_volume d))
             then [Circle (last_pixel shp hand) CIRCLE_RADIUS (0, 0, 255)%Z
                          LINE_THICKNESS]
             else [])
            [] [calculate_volume d] w)).
Proof.
  split; [|split].
  - intros d H. apply Qlt_not_le in H. apply H, calculate_volume_range.
  - intros hand volume w.
    destruct (process_hand_landmarks_effects hypot hand volume w)
      as (draws & lines & levels & E & _ & C).
    exists draws, lines, levels. split; assumption.
  - intros hand volume w mute H shp d S G.
    rewrite process_hand_landmarks_run by trivial. cbv zeta.
    fold shp. fold d. rewrite apply_and_draw_run, S, G. unfold caught.
    rewrite emit_emit. unfold red_flash.
    rewrite <- surjective_pairing. reflexivity.
Qed.

Lemma flash_circle_is_always_red_witness :
  process_hand_landmarks hypot_exact (hand_spread 10) healthy_endpoint
    blank_world =
  (Ok 200,
   emit (fingertip_marks hypot_exact (480, 640, 3)%Z (hand_spread 10) ++
         bar_overlay false 200 ++
         [Circle (320, 240)%Z CIRCLE_RADIUS (0, 0, 255)%Z LINE_THICKNESS])
        [] [calculate_volume 200] blank_world).
Proof.
  exact (proj2 (proj2 (flash_circle_is_always_red hypot_exact))
           (hand_spread 10) healthy_endpoint blank_world false
           ltac:(simpl; lia) eq_refl eq_refl).
Defined.

(** ** The interpolations on every distance *)

(** Splits on where [d] lies and rewrites the three interpolations. *)
Ltac locate d :=
  let L := fresh "L" in
  let R := fresh "R" in
  destruct (Qlt_le_dec 50 d) as [L|L];
  [ destruct (Qlt_le_dec d 300) as [R|R];
    [ rewrite ?(calculate_volume_inside d L R),
              ?(calculate_volume_bar_inside d L R),
              ?(calculate_volume_percentage_inside d L R)
    | rewrite ?(calculate_volume_high d R),
              ?(calculate_volume_bar_high d R),
              ?(calculate_volume_percentage_high d R) ]
  | rewrite ?(calculate_volume_low d L),
            ?(calculate_volume_bar_low d L),
            ?(calculate_volume_percentage_low d L) ].

Lemma py_int_comp x y : x == y -> py_int x = py_int y.
Proof.
  intro E. unfold py_int.
  destruct (Qltb_spec x 0), (Qltb_spec y 0); try lra.
  - now apply Qceiling_comp.
  - now apply Qfloor_comp.
Qed.

Lemma Qltb_comp a b c d : a == c -> b == d -> Qltb a b = Qltb c d.
Proof.
  intros E F. destruct (Qltb_spec a b), (Qltb_spec c d); trivial; lra.
Qed.

(** X1: for every distance the three interpolations agree with each other:
    the percentage is the volume level rescaled from [[-21, 0]] to
    [[0, 100]], and the bar position is [600] minus [5.9] times the
    percentage. *)
Theorem derived_quantities_consistent (d : Q) :
  calculate_volume_percentage d == (100 # 21) * (calculate_volume d + 21) /\
  calculate_volume_bar d == 600 - (59 # 10) * calculate_volume_percentage d.
Proof.
  split; locate d; lra.
Qed.

(** X2: over all distances, clamped ends included, a larger distance never
    gives a lower volume level, a lower percentage or a higher bar
    position. *)
Theorem spreading_never_lowers (d1 d2 : Q) :
  d1 <= d2 ->
  calculate_volume d1 <= calculate_volume d2 /\
  calculate_volume_percentage d1 <= calculate_volume_percentage d2 /\
  calculate_volume_bar d2 <= calculate_volume_bar d1.
Proof.
  intro H. repeat split; locate d1; locate d2; lra.
Qed.

Lemma spreading_never_lowers_witness :
  calculate_volume 20 <= calculate_volume 400 /\
  calculate_volume_percentage 20 <= calculate_volume_percentage 400 /\
  calculate_volume_bar 400 <= calculate_volume_bar 20.
Proof.
  apply (spreading_never_lowers 20 400). lra.
Defined.

Lemma calculate_volume_comp d1 d2 :
  d1 == d2 -> calculate_volume d1 == calculate_volume d2.
Proof.
  intro E. locate d1; locate d2; lra.
Qed.

Lemma floor_at_least (x : Q) (n : Z) :
  (n <= Qfloor x)%Z <-> inject_Z n <= x.
Proof.
  split; intro H.
  - apply Qle_trans with (inject_Z (Qfloor x)); [|apply Qfloor_le].
    now rewrite <- Zle_Qle.
  - rewrite <- (Qfloor_Z n). now apply Qfloor_resp_le.
Qed.

Lemma floor_at_most (x : Q) (n : Z) :
  (Qfloor x <= n)%Z <-> x < inject_Z n + 1.
Proof.
  split; intro H.
  - assert (F := Qlt_floor x). rewrite inject_Z_plus in F.
    change (inject_Z 1) with 1 in F.
    assert (G : inject_Z (Qfloor x) <= inject_Z n)
      by (rewrite <- Zle_Qle; exact H).
    lra.
  - destruct (Z_le_gt_dec (Qfloor x) n) as [L|G]; [exact L|].
    exfalso. assert (F : (n + 1 <= Qfloor x)%Z) by lia.
    apply floor_at_least in F. rewrite inject_Z_plus in F.
    change (inject_Z 1) with 1 in F. lra.
Qed.

(** X3: the top of the filled bar, interpolated into [[600, 10]], lies
    within the rows [150 .. 400] of the outline drawn on line 76 exactly for
    distances from [7950/59] to [14200/59]; the row actually drawn,
    [int(volBar)], lies within [150 .. 400] exactly for distances above
    [7925/59] and up to [14200/59]. *)
Theorem bar_fill_inside_outline (d : Q) :
  ((150 <= calculate_volume_bar d /\ calculate_volume_bar d <= 400) <->
   ((7950 # 59) <= d /\ d <= (14200 # 59))) /\
  ((150 <= py_int (calculate_volume_bar d) <= 400)%Z <->
   ((7925 # 59) < d /\ d <= (14200 # 59))).
Proof.
  split.
  - split; intros [A B]; revert A B; locate d; intros; split; lra.
  - destruct (calculate_volume_bar_range d) as [B0 _].
    rewrite py_int_nonneg by lra.
    rewrite floor_at_least, floor_at_most.
    change (inject_Z 150) with 150. change (inject_Z 400 + 1) with (400 + 1).
    split; intros [A B]; revert A B; locate d; intros; split; lra.
Qed.

(** X4: the message [main] shows for a held distance [d] is the high one
    when [d > 5050/21], the moderate one when [1100/7 < d <= 5050/21] and
    the low one when [d <= 1100/7]. *)
Theorem message_by_distance :
  (forall d, (5050 # 21) < d ->
             volume_message (calculate_volume d) = MSG_HIGH) /\
  (forall d, (1100 # 7) < d -> d <= (5050 # 21) ->
             volume_message (calculate_volume d) = MSG_MODERATE) /\
  (forall d, d <= (1100 # 7) ->
             volume_message (calculate_volume d) = MSG_LOW).
Proof.
  repeat split; intros d; intros; unfold volume_message.
  - destruct (Qltb_spec (-5) (calculate_volume d)) as [A|A]; [reflexivity|].
    exfalso. revert A. locate d; lra.
  - destruct (Qltb_spec (-5) (calculate_volume d)) as [A|A].
    + exfalso. revert A. locate d; lra.
    + destruct (Qltb_spec (-12) (calculate_volume d)) as [B|B];
        [reflexivity|].
      exfalso. revert B. locate d; lra.
  - destruct (Qltb_spec (-5) (calculate_volume d)) as [A|A].
    + exfalso. revert A. locate d; lra.
    + destruct (Qltb_spec (-12) (calculate_volume d)) as [B|B];
        [|reflexivity].
      exfalso. revert B. locate d; lra.
Qed.

Lemma message_by_distance_witness :
  volume_message (calculate_volume 250) = MSG_HIGH /\
  volume_message (calculate_volume 200) = MSG_MODERATE /\
  volume_message (calculate_volume 100) = MSG_LOW.
Proof.
  destruct message_by_distance as (H & M & Lo).
  split; [apply H; lra|]. split; [apply M; lra | apply Lo; lra].
Defined.

Lemma indicator_interp_range v :
  150 <= indicator_interp v /\ indicator_interp v <= 400.
Proof.
  destruct (Qlt_le_dec v (-21)) as [A|A].
  - assert (E : indicator_interp v == 400)
      by (apply interp2_left; consts; lra).
    rewrite E. lra.
  - destruct (Qlt_le_dec 0 v) as [B|B].
    + assert (E : indicator_interp v == 150)
        by (apply interp2_right; consts; lra).
      rewrite E. lra.
    + rewrite (indicator_interp_inside v A B). lra.
Qed.

Lemma indicator_interp_monotone v1 v2 :
  v1 <= v2 -> indicator_interp v2 <= indicator_interp v1.
Proof.
  intro H.
  assert (L : forall v, v <= -21 -> indicator_interp v == 400)
    by (intros; apply interp2_left; consts; lra).
  assert (R : forall v, 0 <= v -> indicator_interp v == 150)
    by (intros; apply interp2_right; consts; lra).
  destruct (Qlt_le_dec v1 (-21)) as [A1|A1];
    [rewrite (L v1) by lra; apply indicator_interp_range|].
  destruct (Qlt_le_dec 0 v2) as [B2|B2];
    [rewrite (R v2) by lra; apply indicator_interp_range|].
  rewrite (indicator_interp_inside v1), (indicator_interp_inside v2); lra.
Qed.

(** X5: for every volume level, in or out of [[-21, 0]], the indicator row
    lies between [150] and [400]; it is [400] at and below [-21], [150] at
    and above [0], and never increases with the level. *)
Theorem indicator_row_stays_on_bar :
  (forall v, (150 <= volume_indicator_y v <= 400)%Z) /\
  (forall v, v <= -21 -> volume_indicator_y v = 400%Z) /\
  (forall v, 0 <= v -> volume_indicator_y v = 150%Z) /\
  (forall v1 v2, v1 <= v2 ->
                 (volume_indicator_y v2 <= volume_indicator_y v1)%Z).
Proof.
  split; [|split; [|split]].
  - intro v. unfold volume_indicator_y.
    destruct (indicator_interp_range v) as [A B].
    rewrite py_int_nonneg by lra. split.
    + change 150%Z with (Qfloor 150). now apply Qfloor_resp_le.
    + change 400%Z with (Qfloor 400). now apply Qfloor_resp_le.
  - intros v H. unfold volume_indicator_y.
    rewrite (py_int_comp _ 400); [reflexivity|].
    apply interp2_left; consts; lra.
  - intros v H. unfold volume_indicator_y.
    rewrite (py_int_comp _ 150); [reflexivity|].
    apply interp2_right; consts; lra.
  - intros v1 v2 H. unfold volume_indicator_y.
    destruct (indicator_interp_range v1), (indicator_interp_range v2).
    rewrite !py_int_nonneg by lra.
    apply Qfloor_resp_le. now apply indicator_interp_monotone.
Qed.

Lemma indicator_row_stays_on_bar_witness :
  volume_indicator_y (-30) = 400%Z /\ volume_indicator_y 5 = 150%Z /\
  (volume_indicator_y 5 <= volume_indicator_y (-30))%Z.
Proof.
  destruct indicator_row_stays_on_bar as (_ & L & R & M).
  split; [apply L; lra|]. split; [apply R; lra | apply M; lra].
Defined.

(** X6: the integers drawn from the distance are the interpolated values
    rounded down: the percentage label is an integer of [[0, 100]] and the
    top row of the fill an integer of [[10, 600]], each at most its value and
    less than one below it. *)
Theorem drawn_integers_round_down (d : Q) :
  let p := py_int (calculate_volume_percentage d) in
  let b := py_int (calculate_volume_bar d) in
  ((0 <= p <= 100)%Z /\
   inject_Z p <= calculate_volume_percentage d /\
   calculate_volume_percentage d < inject_Z p + 1) /\
  ((10 <= b <= 600)%Z /\
   inject_Z b <= calculate_volume_bar d /\
   calculate_volume_bar d < inject_Z b + 1).
Proof.
  cbv zeta.
  destruct (calculate_volume_percentage_range d) as [P0 P1].
  destruct (calculate_volume_bar_range d) as [B0 B1].
  rewrite !py_int_nonneg by lra.
  repeat split.
  - change 0%Z with (Qfloor 0). now apply Qfloor_resp_le.
  - change 100%Z with (Qfloor 100). now apply Qfloor_resp_le.
  - apply Qfloor_le.
  - assert (H := Qlt_floor (calculate_volume_percentage d)).
    rewrite inject_Z_plus in H. exact H.
  - change 10%Z with (Qfloor 10). now apply Qfloor_resp_le.
  - change 600%Z with (Qfloor 600). now apply Qfloor_resp_le.
  - apply Qfloor_le.
  - assert (H := Qlt_floor (calculate_volume_bar d)).
    rewrite inject_Z_plus in H. exact H.
Qed.

(** ** Landmarks *)

Lemma enumerate_from_nth_error {A} (l : list A) : forall n i,
  nth_error (enumerate_from n l) i =
  option_map (fun a => ((n + Z.of_nat i)%Z, a)) (nth_error l i).
Proof.
  induction l as [|a l IH]; intros n i.
  - now destruct i.
  - destruct i as [|i]; simpl.
    + now rewrite Z.add_0_r.
    + rewrite IH. destruct (nth_error l i); simpl; [|reflexivity].
      do 2 f_equal. lia.
Qed.

Lemma build_lmList_nth_error h w c hand i :
  nth_error (build_lmList (h, w, c) hand) i =
  option_map (fun p => (Z.of_nat i, py_int (lm_x p * inject_Z w),
                        py_int (lm_y p * inject_Z h)))
             (nth_error hand i).
Proof.
  unfold build_lmList, enumerate.
  rewrite nth_error_map, enumerate_from_nth_error.
  now destruct (nth_error hand i).
Qed.

Lemma pixel_nth_error h w c hand i p :
  nth_error hand i = Some p ->
  pixel (h, w, c) hand i =
  (py_int (lm_x p * inject_Z w), py_int (lm_y p * inject_Z h)).
Proof.
  intro E. unfold pixel.
  assert (N := build_lmList_nth_error h w c hand i). rewrite E in N.
  simpl in N. now rewrite (nth_error_nth _ _ _ N).
Qed.

Lemma py_int_scale_bounds x n :
  0 <= x -> x <= 1 -> (0 <= n)%Z ->
  (0 <= py_int (x * inject_Z n) <= n)%Z.
Proof.
  intros A B N.
  assert (Nq : 0 <= inject_Z n) by (unfold Qle; simpl; lia).
  assert (P : 0 <= x * inject_Z n) by (apply Qmult_le_0_compat; assumption).
  assert (U : x * inject_Z n <= inject_Z n).
  { rewrite <- (Qmult_1_l (inject_Z n)) at 2.
    apply Qmult_le_compat_r; assumption. }
  rewrite py_int_nonneg by exact P. split.
  - change 0%Z with (Qfloor 0). now apply Qfloor_resp_le.
  - apply Z.le_trans with (Qfloor (inject_Z n));
      [now apply Qfloor_resp_le | rewrite Qfloor_Z; lia].
Qed.

(** X7: [lmList] has one entry per landmark, entry [i] being
    [[i, int(x * w), int(y * h)]]; a landmark with normalized coordinates in
    [[0, 1]] on a frame of non-negative size gets a pixel with
    [0 <= cx <= w] and [0 <= cy <= h]. *)
Theorem lmList_entries (h w c : Z) (hand : list landmark) :
  List.length (build_lmList (h, w, c) hand) = List.length hand /\
  (forall i p, nth_error hand i = Some p ->
     nth_error (build_lmList (h, w, c) hand) i =
     Some (Z.of_nat i, py_int (lm_x p * inject_Z w),
           py_int (lm_y p * inject_Z h))) /\
  (forall i p, nth_error hand i = Some p ->
     (0 <= h)%Z -> (0 <= w)%Z ->
     0 <= lm_x p -> lm_x p <= 1 -> 0 <= lm_y p -> lm_y p <= 1 ->
     let '(x, y) := pixel (h, w, c) hand i in
     (0 <= x <= w)%Z /\ (0 <= y <= h)%Z).
Proof.
  split; [apply build_lmList_length|]. split.
  - intros i p E. rewrite build_lmList_nth_error, E. reflexivity.
  - intros i p E H W X0 X1 Y0 Y1.
    rewrite (pixel_nth_error h w c hand i p E).
    split; now apply py_int_scale_bounds.
Qed.

Lemma lmList_entries_witness :
  nth_error (build_lmList (480, 640, 3)%Z (hand_spread 10)) 8 =
    Some (8%Z, 300%Z, 120%Z) /\
  (0 <= 300 <= 640)%Z /\ (0 <= 120 <= 480)%Z.
Proof.
  destruct (lmList_entries 480 640 3 (hand_spread 10)) as (_ & E & B).
  split.
  - exact (E 8%nat (lm (inject_Z 15 / 32) (1 # 4)) eq_refl).
  - apply (B 8%nat (lm (inject_Z 15 / 32) (1 # 4)) eq_refl);
      (lia || (vm_compute; discriminate)).
Defined.

Section MoreEffects.

Variable hypot : Z -> Z -> Q.

Lemma fingertip_distance_tips h w c hand1 hand2 :
  nth_error hand1 4 = nth_error hand2 4 ->
  nth_error hand1 8 = nth_error hand2 8 ->
  (8 < List.length hand1)%nat ->
  fingertip_distance hypot (h, w, c) hand1 =
  fingertip_distance hypot (h, w, c) hand2.
Proof.
  intros E4 E8 L.
  destruct (nth_error hand1 4) as [p4|] eqn:N4;
    [|apply nth_error_None in N4; lia].
  destruct (nth_error hand1 8) as [p8|] eqn:N8;
    [|apply nth_error_None in N8; lia].
  unfold fingertip_distance.
  rewrite (pixel_nth_error h w c hand1 4 p4 N4).
  rewrite (pixel_nth_error h w c hand1 8 p8 N8).
  rewrite (pixel_nth_error h w c hand2 4 p4) by now symmetry.
  rewrite (pixel_nth_error h w c hand2 8 p8) by now symmetry.
  reflexivity.
Qed.

Lemma process_hand_landmarks_calls hand volume w :
  (8 < List.length hand)%nat ->
  set_calls (snd (process_hand_landmarks hypot hand volume w)) =
  set_calls w ++
  [calculate_volume (fingertip_distance hypot (shape (img w)) hand)].
Proof.
  intro H.
  rewrite process_hand_landmarks_run by trivial. cbv zeta.
  rewrite apply_and_draw_run. unfold caught.
  destruct (set_reply volume _) as [e|];
    [|destruct (mute_reply volume) as [mute|e]];
    try destruct (is_Exception e); simpl snd; rewrite ?emit_emit;
    simpl; now rewrite ?app_nil_r.
Qed.

End MoreEffects.

(** X8: the level passed to [SetMasterVolumeLevel] depends on landmarks 4
    and 8 only: two hands that agree on these two landmarks lead to the same
    calls on the same frame, whatever the other landmarks and whatever the
    endpoint answers. *)
Theorem level_depends_on_tips_only (hypot : Z -> Z -> Q)
    (hand1 hand2 : list landmark) (volume1 volume2 : endpoint) (w : world) :
  nth_error hand1 4 = nth_error hand2 4 ->
  nth_error hand1 8 = nth_error hand2 8 ->
  (8 < List.length hand1)%nat ->
  set_calls (snd (process_hand_landmarks hypot hand1 volume1 w)) =
  set_calls (snd (process_hand_landmarks hypot hand2 volume2 w)).
Proof.
  intros E4 E8 L.
  assert (L2 : (8 < List.length hand2)%nat).
  { apply nth_error_Some. rewrite <- E8. apply nth_error_Some. exact L. }
  rewrite !process_hand_landmarks_calls by assumption.
  destruct (shape (img w)) as [[h wd] c].
  now rewrite (fingertip_distance_tips hypot h wd c hand1 hand2).
Qed.

Lemma level_depends_on_tips_only_witness :
  set_calls (snd (process_hand_landmarks hypot_exact (hand_spread 10)
                    healthy_endpoint blank_world)) =
  set_calls (snd (process_hand_landmarks hypot_exact
                    (firstn 9 (hand_spread 10)) failing_endpoint
                    blank_world)).
Proof.
  apply (level_depends_on_tips_only hypot_exact (hand_spread 10)
           (firstn 9 (hand_spread 10)) healthy_endpoint failing_endpoint
           blank_world).
  - reflexivity.
  - reflexivity.
  - simpl. lia.
Defined.

(** ** Edge and error behaviour of [process_hand_landmarks] *)

(** X9: a hand with fewer than nine landmarks makes
    [process_hand_landmarks] raise before it draws, prints or touches the
    endpoint: [UnboundLocalError] for no landmark at all, [IndexError]
    otherwise; the error is raised outside the [try]. *)
Theorem malformed_hand_raises (hypot : Z -> Z -> Q) (hand : list landmark)
    (volume : endpoint) (w : world) :
  (List.length hand <= 8)%nat ->
  process_hand_landmarks hypot hand volume w =
  (Raise (match hand with
          | [] => UnboundLocalError
                    "cannot access local variable 'length' where it is not associated with a value"
          | _ :: _ => IndexError "list index out of range"
          end), w).
Proof.
  intro H. unfold process_hand_landmarks.
  unfold bind at 1, get_img. cbv zeta.
  assert (L := build_lmList_length (shape (img w)) hand).
  destruct hand as [|p hand].
  - destruct (shape (img w)) as [[h wd] c]. reflexivity.
  - destruct (build_lmList (shape (img w)) (p :: hand)) as [|e0 l] eqn:E;
      [discriminate L|].
    rewrite <- E in *. clear E e0 l.
    destruct (last _ _) as [[il cx] cy].
    destruct (Nat.lt_ge_cases 4 (List.length (p :: hand))) as [H4|H4].
    + rewrite (index_in_range _ 4 (0, 0, 0)%Z) by lia.
      destruct (nth 4 _ _) as [[i4 x1] y1].
      now rewrite index_out_of_range by lia.
    + now rewrite index_out_of_range by lia.
Qed.

Lemma malformed_hand_raises_witness :
  process_hand_landmarks hypot_exact (firstn 8 (hand_spread 10))
    healthy_endpoint blank_world =
  (Raise (IndexError "list index out of range"), blank_world).
Proof.
  apply (malformed_hand_raises hypot_exact (firstn 8 (hand_spread 10))
           healthy_endpoint blank_world).
  simpl. lia.
Defined.

Section Outcomes.

Variable hypot : Z -> Z -> Q.
Variables (hand : list landmark) (volume : endpoint) (w : world).
Hypothesis enough : (8 < List.length hand)%nat.

Lemma process_hand_landmarks_success mute :
  let shp := shape (img w) in
  let d := fingertip_distance hypot shp hand in
  set_reply volume (calculate_volume d) = None ->
  mute_reply volume = Ok mute ->
  process_hand_landmarks hypot hand volume w =
  (Ok d,
   emit (fingertip_marks hypot shp hand ++ bar_overlay mute d ++
         red_flash (calculate_volume d) (fst (last_pixel shp hand))
                   (snd (last_pixel shp hand)))
        [] [calculate_volume d] w).
Proof.
  intros shp d S G.
  rewrite process_hand_landmarks_run by trivial. cbv zeta.
  fold shp. fold d. rewrite apply_and_draw_run, S, G. unfold caught.
  now rewrite emit_emit.
Qed.

Lemma process_hand_landmarks_failure e :
  let shp := shape (img w) in
  let d := fingertip_distance hypot shp hand in
  set_reply volume (calculate_volume d) = Some e \/
  (set_reply volume (calculate_volume d) = None /\
   mute_reply volume = Raise e) ->
  process_hand_landmarks hypot hand volume w =
  if is_Exception e
  then (Ok d,
        emit (fingertip_marks hypot shp hand)
             [("Error updating volume: " ++ exn_str e)%string]
             [calculate_volume d] w)
  else (Raise e,
        emit (fingertip_marks hypot shp hand) [] [calculate_volume d] w).
Proof.
  intros shp d F.
  rewrite process_hand_landmarks_run by trivial. cbv zeta.
  fold shp. fold d. rewrite apply_and_draw_run. unfold caught.
  destruct F as [S|[S G]]; rewrite S; [|rewrite G];
    destruct (is_Exception e); rewrite !emit_emit; simpl;
    now rewrite ?app_nil_r.
Qed.

End Outcomes.

Lemma clamped_low d :
  d < 50 ->
  calculate_volume d = -21 /\ calculate_volume_bar d = 600 /\
  calculate_volume_percentage d = 0.
Proof.
  intro H.
  assert (E : Qltb d (inject_Z MIN_LENGTH) = true)
    by (apply Qltb_true; consts; lra).
  unfold calculate_volume, calculate_volume_bar, calculate_volume_percentage,
    np_interp; simpl.
  now rewrite E.
Qed.

Lemma clamped_high d :
  300 <= d ->
  calculate_volume d = 0 /\ calculate_volume_bar d = 10 /\
  calculate_volume_percentage d = 100.
Proof.
  intro H.
  assert (E : Qltb d (inject_Z MIN_LENGTH) = false)
    by (apply Qltb_false; consts; lra).
  assert (F : Qltb d (inject_Z MAX_LENGTH) = false)
    by (apply Qltb_false; consts; lra).
  unfold calculate_volume, calculate_volume_bar, calculate_volume_percentage,
    np_interp; simpl.
  now rewrite E, F.
Qed.

Lemma flash_condition d :
  Qltb 1 (Qabs (calculate_volume d)) = Qltb d (6050 # 21).
Proof.
  assert (A : Qabs (calculate_volume d) == - calculate_volume d)
    by (apply Qabs_neg, calculate_volume_range).
  destruct (Qltb_spec 1 (Qabs (calculate_volume d))) as [P|P],
           (Qltb_spec d (6050 # 21)) as [T|T]; trivial; exfalso;
    rewrite A in P; revert P; locate d; lra.
Qed.

Lemma bar_color_by_distance mute d :
  bar_color mute (calculate_volume d) =
  if (mute : bool) then VOLUME_BAR_COLOR_MUTE
  else if Qltb d 300 then VOLUME_BAR_COLOR_LOW else VOLUME_BAR_COLOR_HIGH.
Proof.
  unfold bar_color. destruct mute; [reflexivity|].
  destruct (Qltb_spec (calculate_volume d) 0) as [P|P],
           (Qltb_spec d 300) as [T|T]; trivial; exfalso;
    revert P; locate d; lra.
Qed.

(** X10: a [KeyboardInterrupt] raised by [SetMasterVolumeLevel] or by
    [GetMute] is not caught by [except Exception]: it leaves
    [process_hand_landmarks], nothing is printed, and the frame keeps the
    fingertip marks only. *)
Theorem interrupt_escapes_try (hypot : Z -> Z -> Q) (hand : list landmark)
    (volume : endpoint) (w : world) :
  (8 < List.length hand)%nat ->
  let shp := shape (img w) in
  let d := fingertip_distance hypot shp hand in
  set_reply volume (calculate_volume d) = Some KeyboardInterrupt \/
  (set_reply volume (calculate_volume d) = None /\
   mute_reply volume = Raise KeyboardInterrupt) ->
  process_hand_landmarks hypot hand volume w =
  (Raise KeyboardInterrupt,
   emit (fingertip_marks hypot shp hand) [] [calculate_volume d] w).
Proof.
  intros H shp d F.
  exact (process_hand_landmarks_failure hypot hand volume w H
           KeyboardInterrupt F).
Qed.

(** X11: when [SetMasterVolumeLevel] succeeds and [GetMute] then raises an
    [Exception], the level has been applied, the error is printed, the bar,
    label, instructions and flash are not drawn, and the measured distance is
    returned. *)
Theorem mute_failure_after_apply (hypot : Z -> Z -> Q) (hand : list landmark)
    (volume : endpoint) (w : world) (e : exn) :
  (8 < List.length hand)%nat ->
  let shp := shape (img w) in
  let d := fingertip_distance hypot shp hand in
  set_reply volume (calculate_volume d) = None ->
  mute_reply volume = Raise e ->
  is_Exception e = true ->
  process_hand_landmarks hypot hand volume w =
  (Ok d,
   emit (fingertip_marks hypot shp hand)
        [("Error updating volume: " ++ exn_str e)%string]
        [calculate_volume d] w).
Proof.
  intros H shp d S G X.
  rewrite (process_hand_landmarks_failure hypot hand volume w H e)
    by (right; split; assumption).
  now rewrite X.
Qed.

(** X12: on a run where both endpoint calls succeed, the flash is drawn
    exactly when the measured distance is below [6050/21], and the bar is
    black when muted, otherwise green for distances below [300] and red from
    [300] on. *)
Theorem overlay_by_distance (hypot : Z -> Z -> Q) (hand : list landmark)
    (volume : endpoint) (w : world) (mute : bool) :
  (8 < List.length hand)%nat ->
  let shp := shape (img w) in
  let d := fingertip_distance hypot shp hand in
  set_reply volume (calculate_volume d) = None ->
  mute_reply volume = Ok mute ->
  process_hand_landmarks hypot hand volume w =
  (Ok d,
   emit (fingertip_marks hypot shp hand ++ bar_overlay mute d ++
         if Qltb d (6050 # 21)
         then [Circle (last_pixel shp hand) CIRCLE_RADIUS (0, 0, 255)%Z
                      LINE_THICKNESS]
         else [])
        [] [calculate_volume d] w) /\
  bar_color mute (calculate_volume d) =
  (if mute then (0, 0, 0)%Z
   else if Qltb d 300 then (0, 255, 0)%Z else (0, 0, 255)%Z).
Proof.
  intros H shp d S G. split.
  - rewrite (process_hand_landmarks_success hypot hand volume w H mute S G).
    unfold red_flash. rewrite flash_condition.
    now rewrite <- surjective_pairing.
  - apply bar_color_by_distance.
Qed.

(** X13: with the fingertips less than 50 pixels apart and a working
    endpoint, the level applied is [-21], and the frame gets the two tip
    circles, the line, the white centre marker, the outline, a fill from row
    [600], the label [0%], the two instructions and a red flash. *)
Theorem pinch_sets_minimum (hypot : Z -> Z -> Q) (hand : list landmark)
    (volume : endpoint) (w : world) (mute : bool) :
  (8 < List.length hand)%nat ->
  let shp := shape (img w) in
  let d := fingertip_distance hypot shp hand in
  d < 50 ->
  set_reply volume (-21) = None ->
  mute_reply volume = Ok mute ->
  let '(x1, y1) := pixel shp hand 4 in
  let '(x2, y2) := pixel shp hand 8 in
  let col : color := if mute then (0, 0, 0)%Z else (0, 255, 0)%Z in
  process_hand_landmarks hypot hand volume w =
  (Ok d,
   emit [Circle (x1, y1) 15 (255, 0, 0)%Z (-1);
         Circle (x2, y2) 15 (255, 0, 0)%Z (-1);
         Line (x1, y1) (x2, y2) (255, 0, 255)%Z 3;
         Circle ((x1 + x2) / 2, (y1 + y2) / 2)%Z 15 (255, 255, 255)%Z (-1);
         Rectangle (50, 150)%Z (85, 400)%Z col 3;
         Rectangle (50, 600)%Z (85, 400)%Z col (-1);
         PutText "0%" (40, 450)%Z FONT_HERSHEY_PLAIN 1 (255, 255, 255)%Z 2;
         PutText "Spread your fingers to adjust volume." (20, 30)%Z
                 FONT_HERSHEY_SIMPLEX (7 # 10) (255, 255, 255)%Z 2;
         PutText "Bring fingertips close to mute." (20, 55)%Z
                 FONT_HERSHEY_SIMPLEX (7 # 10) (255, 255, 255)%Z 2;
         Circle (last_pixel shp hand) 15 (0, 0, 255)%Z 3]
        [] [-21] w).
Proof.
  intros H shp d D S G.
  destruct (clamped_low d D) as (V & B & P).
  assert (T : Qltb d (inject_Z MIN_LENGTH) = true)
    by (apply Qltb_true; consts; lra).
  rewrite <- V in S.
  rewrite (process_hand_landmarks_success hypot hand volume w H mute S G).
  fold shp. fold d. unfold fingertip_marks, bar_overlay, red_flash, bar_color.
  fold d. rewrite T, V, B, P.
  destruct (pixel shp hand 4) as [x1 y1], (pixel shp hand 8) as [x2 y2].
  rewrite <- surjective_pairing. now destruct mute.
Qed.

(** X14: with the fingertips 300 pixels or more apart and a working
    endpoint, the level applied is [0], the label is [100%], the fill starts
    at row [10], the bar is red unless muted, and neither the centre marker
    nor the flash is drawn. *)
Theorem full_spread_sets_maximum (hypot : Z -> Z -> Q) (hand : list landmark)
    (volume : endpoint) (w : world) (mute : bool) :
  (8 < List.length hand)%nat ->
  let shp := shape (img w) in
  let d := fingertip_distance hypot shp hand in
  300 <= d ->
  set_reply volume 0 = None ->
  mute_reply volume = Ok mute ->
  let '(x1, y1) := pixel shp hand 4 in
  let '(x2, y2) := pixel shp hand 8 in
  let col : color := if mute then (0, 0, 0)%Z else (0, 0, 255)%Z in
  process_hand_landmarks hypot hand volume w =
  (Ok d,
   emit [Circle (x1, y1) 15 (255, 0, 0)%Z (-1);
         Circle (x2, y2) 15 (255, 0, 0)%Z (-1);
         Line (x1, y1) (x2, y2) (255, 0, 255)%Z 3;
         Rectangle (50, 150)%Z (85, 400)%Z col 3;
         Rectangle (50, 10)%Z (85, 400)%Z col (-1);
         PutText "100%" (40, 450)%Z FONT_HERSHEY_PLAIN 1 (255, 255, 255)%Z 2;
         PutText "Spread your fingers to adjust volume." (20, 30)%Z
                 FONT_HERSHEY_SIMPLEX (7 # 10) (255, 255, 255)%Z 2;
         PutText "Bring fingertips close to mute." (20, 55)%Z
                 FONT_HERSHEY_SIMPLEX (7 # 10) (255, 255, 255)%Z 2]
        [] [0] w).
Proof.
  intros H shp d D S G.
  destruct (clamped_high d D) as (V & B & P).
  assert (T : Qltb d (inject_Z MIN_LENGTH) = false)
    by (apply Qltb_false; consts; lra).
  rewrite <- V in S.
  rewrite (process_hand_landmarks_success hypot hand volume w H mute S G).
  fold shp. fold d. unfold fingertip_marks, bar_overlay, red_flash, bar_color.
  fold d. rewrite T, V, B, P.
  destruct (pixel shp hand 4) as [x1 y1], (pixel shp hand 8) as [x2 y2].
  now destruct mute.
Qed.

Lemma interrupt_escapes_try_witness :
  fst (process_hand_landmarks hypot_exact (hand_spread 10)
         {| set_reply := fun _ => Some KeyboardInterrupt;
            mute_reply := Ok false |} blank_world) =
  Raise KeyboardInterrupt.
Proof.
  rewrite (interrupt_escapes_try hypot_exact (hand_spread 10)
             {| set_reply := fun _ => Some KeyboardInterrupt;
                mute_reply := Ok false |} blank_world).
  - reflexivity.
  - simpl. lia.
  - left. reflexivity.
Defined.

Lemma mute_failure_after_apply_witness :
  fst (process_hand_landmarks hypot_exact (hand_spread 10)
         {| set_reply := fun _ => None;
            mute_reply := Raise (COMError "device removed") |}
         blank_world) = Ok 200.
Proof.
  rewrite (mute_failure_after_apply hypot_exact (hand_spread 10)
             {| set_reply := fun _ => None;
                mute_reply := Raise (COMError "device removed") |}
             blank_world (COMError "device removed")).
  - reflexivity.
  - simpl. lia.
  - reflexivity.
  - reflexivity.
  - reflexivity.
Defined.

Lemma overlay_by_distance_witness :
  fst (process_hand_landmarks hypot_exact (hand_spread 10) healthy_endpoint
         blank_world) = Ok 200 /\
  bar_color false (calculate_volume 200) = (0, 255, 0)%Z.
Proof.
  destruct (overlay_by_distance hypot_exact (hand_spread 10) healthy_endpoint
              blank_world false) as [E C].
  - simpl. lia.
  - reflexivity.
  - reflexivity.
  - split; [now rewrite E | exact C].
Defined.

Lemma pinch_sets_minimum_witness :
  set_calls (snd (process_hand_landmarks hypot_exact (hand_spread 2)
                    healthy_endpoint blank_world)) = [-21].
Proof.
  assert (E := pinch_sets_minimum hypot_exact (hand_spread 2)
                 healthy_endpoint blank_world false).
  cbv zeta in E.
  change (pixel (shape (img blank_world)) (hand_spread 2) 4)
    with (100, 120)%Z in E.
  change (pixel (shape (img blank_world)) (hand_spread 2) 8)
    with (140, 120)%Z in E.
  rewrite E.
  - reflexivity.
  - simpl. lia.
  - vm_compute. reflexivity.
  - reflexivity.
  - reflexivity.
Defined.

Lemma full_spread_sets_maximum_witness :
  set_calls (snd (process_hand_landmarks hypot_exact (hand_spread 15)
                    healthy_endpoint blank_world)) = [0].
Proof.
  assert (E := full_spread_sets_maximum hypot_exact (hand_spread 15)
                 healthy_endpoint blank_world false).
  cbv zeta in E.
  change (pixel (shape (img blank_world)) (hand_spread 15) 4)
    with (100, 120)%Z in E.
  change (pixel (shape (img blank_world)) (hand_spread 15) 8)
    with (400, 120)%Z in E.
  rewrite E.
  - reflexivity.
  - simpl. lia.
  - vm_compute. discriminate.
  - reflexivity.
  - reflexivity.
Defined.

(** ** The control loop *)

Section Loop.

Variable hypot : Z -> Z -> Q.

Lemma loop_body_run s f w :
  loop_body hypot s f w =
  match capture f with
  | None => (Raise (cv2_error "(-215:Assertion failed) !_src.empty()"), w)
  | Some shp =>
      match multi_hand_landmarks f with
      | [] => finish_iteration f s (new_frame shp w)
      | hand :: _ =>
          match process_hand_landmarks hypot hand (volume f)
                  (emit [Landmarks hand] [] [] (new_frame shp w)) with
          | (Ok len, w2) =>
              finish_iteration f {| length := len; handLms := Some hand |} w2
          | (Raise e, w2) => (Raise e, w2)
          end
      end
  end.
Proof.
  unfold loop_body, cap_read, detect_and_process, finish_iteration.
  destruct (capture f) as [shp|]; [|reflexivity].
  unfold bind at 1. fold (new_frame shp w).
  destruct (multi_hand_landmarks f) as [|hand others].
  - rewrite bind_ret.
    unfold display_volume_indicator, display_volume_message.
    rewrite !bind_draw, !emit_emit.
    destruct (handLms s); unfold display_hand_icon; rewrite bind_ret;
      reflexivity.
  - rewrite !bind_assoc, bind_draw. unfold bind at 1. unfold bind at 1.
    destruct (process_hand_landmarks hypot hand (volume f) _)
      as [[len|e] w2]; [|reflexivity].
    unfold ret at 1. cbv beta iota.
    unfold display_volume_indicator, display_volume_message.
    rewrite !bind_draw, !emit_emit. cbn [handLms length].
    unfold display_hand_icon. rewrite bind_ret. reflexivity.
Qed.

Lemma run_loop_app pre : forall post s w,
  run_loop hypot s (pre ++ post) w =
  match run_loop hypot s pre w with
  | (Ok (Running s'), w') => run_loop hypot s' post w'
  | r => r
  end.
Proof.
  induction pre as [|f pre IH]; intros post s w; [reflexivity|].
  simpl. unfold bind.
  destruct (loop_body hypot s f w) as [[[s1 q]|e] w1]; [|reflexivity].
  simpl. destruct q; [reflexivity|apply IH].
Qed.


Lemma process_hand_landmarks_ok hand volume w len w2 :
  process_hand_landmarks hypot hand volume w = (Ok len, w2) ->
  (8 < List.length hand)%nat /\
  len = fingertip_distance hypot (shape (img w)) hand /\
  set_calls w2 = set_calls w ++ [calculate_volume len] /\
  shown w2 = shown w /\
  (exists lines, console w2 = console w ++ lines) /\
  (exists draws, overlay (img w2) = overlay (img w) ++ draws).
Proof.
  intro P.
  destruct (Nat.lt_ge_cases 8 (List.length hand)) as [H|H].
  - split; [exact H|].
    assert (D := process_hand_landmarks_returns hypot _ _ _ _ _ P).
    assert (C := process_hand_landmarks_calls hypot hand volume w H).
    destruct (process_hand_landmarks_effects hypot hand volume w)
      as (draws & lines & levels & E & _).
    rewrite P in C, E. simpl in C, E. subst w2 len.
    split; [reflexivity|]. split; [exact C|]. split; [reflexivity|].
    split; eexists; reflexivity.
  - destruct (process_hand_landmarks_short hypot hand volume w H) as [e E].
    congruence.
Qed.

Lemma loop_body_ok s f w s' q w' :
  loop_body hypot s f w = (Ok (s', q), w') ->
  q = (key f =? 27)%Z /\
  length s' = match measured hypot f with
              | Some d => d
              | None => length s
              end /\
  set_calls w' =
    set_calls w ++ match measured hypot f with
                   | Some d => [calculate_volume d]
                   | None => []
                   end /\
  shown w' = shown w ++ [img w'] /\
  (exists lines, console w' = console w ++ lines) /\
  (exists before,
      overlay (img w') = before ++ indicator_and_message (length s')).
Proof.
  rewrite loop_body_run. unfold measured, finish_iteration.
  destruct (capture f) as [shp|];
    [|destruct (multi_hand_landmarks f); discriminate].
  destruct (multi_hand_landmarks f) as [|hand others].
  - intro E. inversion E; subst. simpl. rewrite !app_nil_r.
    repeat split; trivial.
    + exists []. now rewrite app_nil_r.
    + now exists [].
  - destruct (process_hand_landmarks hypot hand (volume f) _)
      as [[len|e] w2] eqn:P; [|discriminate].
    apply process_hand_landmarks_ok in P.
    destruct P as (_ & D & C & Sh & [lines Co] & [draws Ov]).
    simpl in D, C, Sh, Co, Ov. rewrite app_nil_r in C, Co.
    intro E. inversion E; subst s' q w'. clear E. simpl.
    rewrite !app_nil_r, C, Sh, Co, Ov, <- D.
    repeat split; trivial.
    + now exists lines.
    + now exists (Landmarks hand :: draws).
Qed.

Lemma loop_body_any s f w :
  exists lines levels,
    console (snd (loop_body hypot s f w)) = console w ++ lines /\
    set_calls (snd (loop_body hypot s f w)) = set_calls w ++ levels /\
    Forall (fun v => -21 <= v /\ v <= 0) levels /\
    (multi_hand_landmarks f = [] -> levels = []).
Proof.
  rewrite loop_body_run. unfold finish_iteration.
  destruct (capture f) as [shp|].
  - destruct (multi_hand_landmarks f) as [|hand others].
    + exists [], []. simpl. rewrite !app_nil_r. repeat split; constructor.
    + destruct (process_hand_landmarks_effects hypot hand (volume f)
                  (emit [Landmarks hand] [] [] (new_frame shp w)))
        as (draws & lines & levels & E & R & _).
      exists lines, levels.
      destruct (process_hand_landmarks hypot hand (volume f) _)
        as [[len|e] w2]; simpl in E; subst w2; simpl;
        rewrite ?app_nil_r; repeat split; trivial; discriminate.
  - exists [], []. simpl. rewrite !app_nil_r.
    repeat split; trivial; constructor.
Qed.

Lemma run_loop_any frames : forall s0 w0,
  exists lines levels,
    console (snd (run_loop hypot s0 frames w0)) = console w0 ++ lines /\
    set_calls (snd (run_loop hypot s0 frames w0)) = set_calls w0 ++ levels /\
    Forall (fun v => -21 <= v /\ v <= 0) levels /\
    (Forall (fun f => multi_hand_landmarks f = []) frames -> levels = []).
Proof.
  induction frames as [|f frames IH]; intros s0 w0.
  - exists [], []. simpl. rewrite !app_nil_r. repeat split; constructor.
  - destruct (loop_body_any s0 f w0) as (l1 & v1 & Co & Ca & R & N).
    simpl. unfold bind.
    destruct (loop_body hypot s0 f w0) as [[[s1 q]|e] w1]; simpl in Co, Ca.
    + simpl. destruct q.
      * exists l1, v1. simpl. repeat split; trivial.
        intro F. inversion F; auto.
      * destruct (IH s1 w1) as (l2 & v2 & Co' & Ca' & R' & N').
        exists (l1 ++ l2), (v1 ++ v2).
        rewrite Co', Ca', Co, Ca, !app_assoc.
        repeat split; trivial.
        -- apply Forall_app; split; assumption.
        -- intro F. inversion F; subst. rewrite N, N'; trivial.
    + exists l1, v1. simpl. repeat split; trivial.
      intro F. inversion F; auto.
Qed.

End Loop.

Lemma wellformed_iteration_raises_interrupt_only (hypot : Z -> Z -> Q)
    s f w e w' :
  capture f <> None ->
  (forall hand others, multi_hand_landmarks f = hand :: others ->
                       (8 < List.length hand)%nat) ->
  loop_body hypot s f w = (Raise e, w') ->
  e = KeyboardInterrupt.
Proof.
  intros C H. rewrite loop_body_run. unfold finish_iteration.
  destruct (capture f) as [shp|]; [|contradiction].
  destruct (multi_hand_landmarks f) as [|hand others]; [discriminate|].
  rewrite process_hand_landmarks_run by (eapply H; reflexivity).
  cbv zeta. unfold caught.
  destruct (apply_and_draw _ _ _ _ _) as [[[]|e'] w2]; [discriminate|].
  destruct e'; simpl; try discriminate.
  intro E. now inversion E.
Qed.

(** X15: when an iteration on a frame with a hand completes, the level
    passed to the endpoint is the level of the distance kept in [length],
    the frame shown ends with the indicator and the message of that same
    distance, and [handLms] is the first hand of the frame. *)
Theorem hand_frame_shows_applied_level (hypot : Z -> Z -> Q)
    (s : locals) (f : frame) (w : world) (s' : locals) (q : bool)
    (w' : world) (hand : list landmark) (others : list (list landmark)) :
  loop_body hypot s f w = (Ok (s', q), w') ->
  multi_hand_landmarks f = hand :: others ->
  handLms s' = Some hand /\
  set_calls w' = set_calls w ++ [calculate_volume (length s')] /\
  (exists before,
      overlay (img w') = before ++ indicator_and_message (length s')) /\
  shown w' = shown w ++ [img w'].
Proof.
  intros B H.
  assert (Hd : handLms s' = Some hand).
  { revert B. rewrite loop_body_run, H. unfold finish_iteration.
    destruct (capture f) as [shp|]; [|discriminate].
    destruct (process_hand_landmarks hypot hand (volume f) _)
      as [[len|e] w2]; [|discriminate].
    intro E. now inversion E. }
  assert (M : exists d, measured hypot f = Some d).
  { revert B. rewrite loop_body_run. unfold measured. rewrite H.
    destruct (capture f) as [shp|]; [|discriminate]. eauto. }
  destruct M as [d M].
  apply loop_body_ok in B. rewrite M in B.
  destruct B as (_ & L & C & Sh & _ & O). rewrite L.
  repeat split; trivial. now rewrite <- L.
Qed.

Lemma hand_frame_shows_applied_level_witness :
  set_calls (snd (loop_body hypot_exact initial_locals
                    (frame_with [hand_spread 10] healthy_endpoint)
                    blank_world)) =
  [calculate_volume 200].
Proof.
  pose (r := loop_body hypot_exact initial_locals
               (frame_with [hand_spread 10] healthy_endpoint) blank_world).
  assert (B : loop_body hypot_exact initial_locals
                (frame_with [hand_spread 10] healthy_endpoint) blank_world =
              (Ok ({| length := 200; handLms := Some (hand_spread 10) |},
                   false), snd r))
    by (vm_compute; reflexivity).
  destruct (hand_frame_shows_applied_level hypot_exact _ _ _ _ _ _
              (hand_spread 10) [] B eq_refl) as (_ & C & _).
  exact C.
Defined.

(** X16: when the loop is still running after [frames], the endpoint has
    received exactly one level per frame with a hand, in order, each the
    level of the distance measured on that frame; one frame has been shown
    per iteration, and no key read was Esc. *)
Theorem completed_run_trace (hypot : Z -> Z -> Q) (frames : list frame)
    (s0 : locals) (w0 : world) (s : locals) (w : world) :
  run_loop hypot s0 frames w0 = (Ok (Running s), w) ->
  set_calls w = set_calls w0 ++ applied_levels hypot frames /\
  List.length (shown w) = (List.length (shown w0) + List.length frames)%nat /\
  Forall (fun f => key f <> 27%Z) frames.
Proof.
  revert s0 w0 s w.
  induction frames as [|f frames IH]; intros s0 w0 s w E.
  - simpl in E. unfold ret in E. inversion E; subst. simpl.
    rewrite app_nil_r, Nat.add_0_r. repeat split; constructor.
  - simpl in E. unfold bind in E.
    destruct (loop_body hypot s0 f w0) as [[[s1 q]|e] w1] eqn:B;
      [|discriminate].
    simpl in E. destruct q; [discriminate|].
    apply loop_body_ok in B. destruct B as (K & _ & C & Sh & _).
    apply IH in E. destruct E as (C' & Sh' & Ks).
    split; [|split].
    + rewrite C', C. simpl. now rewrite app_assoc.
    + rewrite Sh', Sh, length_app. simpl. lia.
    + constructor; [|exact Ks]. intro K27. rewrite K27 in K. discriminate.
Qed.

Lemma completed_run_trace_witness :
  set_calls (snd (run_loop hypot_exact initial_locals
                    [frame_with [hand_spread 5] healthy_endpoint;
                     frame_with [] healthy_endpoint;
                     frame_with [hand_spread 10] failing_endpoint]
                    blank_world)) =
  [calculate_volume 100; calculate_volume 200].
Proof.
  pose (frames := [frame_with [hand_spread 5] healthy_endpoint;
                   frame_with [] healthy_endpoint;
                   frame_with [hand_spread 10] failing_endpoint]).
  pose (r := run_loop hypot_exact initial_locals frames blank_world).
  assert (R : run_loop hypot_exact initial_locals frames blank_world =
              (Ok (Running {| length := 200;
                              handLms := Some (hand_spread 10) |}), snd r))
    by (vm_compute; reflexivity).
  exact (proj1 (completed_run_trace hypot_exact frames _ _ _ _ R)).
Defined.

(** X17: however a run of the loop ends, by Esc, by an exception or not
    yet, the console only grew, every level passed to the endpoint lies in
    [[-21, 0]], and frames without a hand pass none. *)
Theorem levels_always_in_range (hypot : Z -> Z -> Q) (frames : list frame)
    (s0 : locals) (w0 : world) :
  exists lines levels,
    console (snd (run_loop hypot s0 frames w0)) = console w0 ++ lines /\
    set_calls (snd (run_loop hypot s0 frames w0)) = set_calls w0 ++ levels /\
    Forall (fun v => -21 <= v /\ v <= 0) levels /\
    (Forall (fun f => multi_hand_landmarks f = []) frames -> levels = []).
Proof. apply run_loop_any. Qed.

(** X18: when the iteration in which Esc (key 27) is read completes,
    [main] ends without an exception in the world that iteration left, the
    frames after it are never read, and the [finally] block has run. *)
Theorem escape_ends_main (hypot : Z -> Z -> Q) (pre post : list frame)
    (f : frame) (w0 w1 w2 : world) (s1 s2 : locals) (q : bool) :
  run_loop hypot initial_locals pre w0 = (Ok (Running s1), w1) ->
  loop_body hypot s1 f w1 = (Ok (s2, q), w2) ->
  key f = 27%Z ->
  main hypot (pre ++ f :: post) w0 =
  Some {| uncaught := None; final := w2;
          cleanup := [cap_release; destroyAllWindows] |}.
Proof.
  intros R B K. unfold main. rewrite run_loop_app, R. simpl.
  unfold bind. rewrite B.
  apply loop_body_ok in B. destruct B as (Q & _). rewrite K in Q. subst q.
  reflexivity.
Qed.

Lemma escape_ends_main_witness :
  exists w2,
    main hypot_exact
      ([frame_with [hand_spread 5] healthy_endpoint] ++
       {| capture := Some (480, 640, 3)%Z; multi_hand_landmarks := [];
          volume := healthy_endpoint; key := 27 |} ::
       [frame_with [hand_spread 10] healthy_endpoint]) blank_world =
    Some {| uncaught := None; final := w2;
            cleanup := [cap_release; destroyAllWindows] |}.
Proof.
  pose (pre := [frame_with [hand_spread 5] healthy_endpoint]).
  pose (f := {| capture := Some (480, 640, 3)%Z; multi_hand_landmarks := [];
                volume := healthy_endpoint; key := 27 |}).
  pose (s1 := {| length := 100; handLms := Some (hand_spread 5) |}).
  pose (w1 := snd (run_loop hypot_exact initial_locals pre blank_world)).
  pose (w2 := snd (loop_body hypot_exact s1 f w1)).
  exists w2.
  apply (escape_ends_main hypot_exact pre _ f blank_world w1 w2 s1 s1 true).
  - vm_compute. reflexivity.
  - vm_compute. reflexivity.
  - reflexivity.
Defined.

(** X19: a failed read ends [main] with the [cv2.error] of [cvtColor]:
    nothing is drawn, applied or shown for that frame, later frames are
    never read, and the [finally] block has run. *)
Theorem failed_capture_ends_main (hypot : Z -> Z -> Q) (pre post : list frame)
    (f : frame) (w0 w1 : world) (s1 : locals) :
  run_loop hypot initial_locals pre w0 = (Ok (Running s1), w1) ->
  capture f = None ->
  main hypot (pre ++ f :: post) w0 =
  Some {| uncaught := Some (cv2_error "(-215:Assertion failed) !_src.empty()");
          final := w1;
          cleanup := [cap_release; destroyAllWindows] |}.
Proof.
  intros R C. unfold main. rewrite run_loop_app, R. simpl.
  unfold bind. rewrite loop_body_run, C. reflexivity.
Qed.

Lemma failed_capture_ends_main_witness :
  main hypot_exact
    ([] ++ {| capture := None; multi_hand_landmarks := [hand_spread 5];
              volume := healthy_endpoint; key := (-1)%Z |} :: [])
    blank_world =
  Some {| uncaught := Some (cv2_error "(-215:Assertion failed) !_src.empty()");
          final := blank_world;
          cleanup := [cap_release; destroyAllWindows] |}.
Proof.
  apply (failed_capture_ends_main hypot_exact [] [] _ blank_world blank_world
           initial_locals); reflexivity.
Defined.

(** X20: a [KeyboardInterrupt] raised by [SetMasterVolumeLevel] on a frame
    with a hand ends [main] without an exception: the farewell line is
    printed, the frame is not shown, and the [finally] block has run. *)
Theorem interrupt_ends_main_gracefully (hypot : Z -> Z -> Q)
    (pre post : list frame) (f : frame) (w0 w1 : world) (s1 : locals)
    (shp : Z * Z * Z) (hand : list landmark) (others : list (list landmark)) :
  run_loop hypot initial_locals pre w0 = (Ok (Running s1), w1) ->
  capture f = Some shp ->
  multi_hand_landmarks f = hand :: others ->
  (8 < List.length hand)%nat ->
  let d := fingertip_distance hypot shp hand in
  set_reply (volume f) (calculate_volume d) = Some KeyboardInterrupt ->
  main hypot (pre ++ f :: post) w0 =
  Some {| uncaught := None;
          final := emit (Landmarks hand :: fingertip_marks hypot shp hand)
                        ["Exiting gracefully due to user interruption."%string]
                        [calculate_volume d] (new_frame shp w1);
          cleanup := [cap_release; destroyAllWindows] |}.
Proof.
  intros R C H L d S. unfold main. rewrite run_loop_app, R. simpl.
  unfold bind. rewrite loop_body_run, C, H.
  rewrite (process_hand_landmarks_failure hypot hand (volume f) _ L
             KeyboardInterrupt) by (left; exact S).
  simpl is_Exception. cbv iota.
  unfold emit, new_frame, d. simpl. now rewrite ?app_nil_r.
Qed.

(** X21: when every read succeeds and every detected hand has at least
    nine landmarks, no answer of the audio endpoint makes [main] end with an
    exception; whenever [main] ends, the [finally] block has run. *)
Theorem endpoint_cannot_crash_main (hypot : Z -> Z -> Q)
    (frames : list frame) (w : world) (fin : ending) :
  Forall (fun f =>
            capture f <> None /\
            forall hand others, multi_hand_landmarks f = hand :: others ->
                                (8 < List.length hand)%nat) frames ->
  main hypot frames w = Some fin ->
  uncaught fin = None /\ cleanup fin = [cap_release; destroyAllWindows].
Proof.
  intros WF. unfold main.
  assert (G : forall s0 w0 e w',
             run_loop hypot s0 frames w0 = (Raise e, w') ->
             e = KeyboardInterrupt).
  { induction WF as [|f frames [C H] _ IH]; intros s0 w0 e w' E.
    - discriminate.
    - simpl in E. unfold bind in E.
      destruct (loop_body hypot s0 f w0) as [[[s1 q]|e1] w1] eqn:B.
      + simpl in E. destruct q; [discriminate|]. eapply IH, E.
      + inversion E; subst.
        eapply wellformed_iteration_raises_interrupt_only; eassumption. }
  destruct (run_loop hypot initial_locals frames w) as [[[s|s]|e] w'] eqn:R.
  - discriminate.
  - intro E. inversion E. now split.
  - apply G in R. subst e. intro E. inversion E. now split.
Qed.

(** X22: whenever the program ends, its console output starts with the
    three welcome lines, whatever follows. *)
Theorem program_greets (hypot : Z -> Z -> Q) (frames : list frame) (w : world)
    (fin : ending) :
  program hypot frames w = Some fin ->
  exists rest,
    console (final fin) =
    console w ++
    ["Welcome to Hand Gesture Volume Control!";
     "Adjust your computer's volume by spreading your fingers or bringing fingertips close together.";
     "Press 'Esc' key to exit the program."]%string ++ rest.
Proof.
  unfold program, main.
  remember (snd ((print "Welcome to Hand Gesture Volume Control!" ;;
                  print "Adjust your computer's volume by spreading your fingers or bringing fingertips close together." ;;
                  print "Press 'Esc' key to exit the program.") w)) as w0 eqn:W.
  assert (C0 : console w0 = console w ++
     ["Welcome to Hand Gesture Volume Control!";
      "Adjust your computer's volume by spreading your fingers or bringing fingertips close together.";
      "Press 'Esc' key to exit the program."]%string).
  { subst w0. unfold bind, print. simpl. now rewrite <- !app_assoc. }
  clear W.
  destruct (run_loop_any hypot frames initial_locals w0)
    as (lines & levels & Co & _).
  destruct (run_loop hypot initial_locals frames w0) as [[[s|s]|e] w'];
    simpl in Co.
  - discriminate.
  - intro E. inversion E. simpl. exists lines.
    now rewrite Co, C0, <- app_assoc.
  - destruct e; intro E; inversion E; simpl;
      try (exists lines; now rewrite Co, C0, <- app_assoc).
    exists (lines ++ ["Exiting gracefully due to user interruption."%string]).
    now rewrite Co, C0, <- !app_assoc.
Qed.

Lemma bar_fill_inside_outline_witness :
  (150 <= calculate_volume_bar 200 /\ calculate_volume_bar 200 <= 400) /\
  (150 <= py_int (calculate_volume_bar 200) <= 400)%Z.
Proof.
  destruct (bar_fill_inside_outline 200) as [A B].
  split; [apply (proj2 A) | apply (proj2 B)]; split; lra.
Defined.

Lemma levels_always_in_range_witness :
  set_calls (snd (run_loop hypot_exact initial_locals
                    [frame_with [] healthy_endpoint;
                     frame_with [] failing_endpoint] blank_world)) = [].
Proof.
  destruct (levels_always_in_range hypot_exact
              [frame_with [] healthy_endpoint;
               frame_with [] failing_endpoint] initial_locals blank_world)
    as (lines & levels & _ & Ca & _ & N).
  rewrite Ca, N; [reflexivity|]. repeat constructor.
Defined.

Lemma interrupt_ends_main_gracefully_witness :
  main hypot_exact
    ([] ++ frame_with [hand_spread 10]
             {| set_reply := fun _ => Some KeyboardInterrupt;
                mute_reply := Ok false |} :: []) blank_world =
  Some {| uncaught := None;
          final := emit (Landmarks (hand_spread 10) ::
                         fingertip_marks hypot_exact (480, 640, 3)%Z
                           (hand_spread 10))
                        ["Exiting gracefully due to user interruption."%string]
                        [calculate_volume
                           (fingertip_distance hypot_exact (480, 640, 3)%Z
                              (hand_spread 10))]
                        (new_frame (480, 640, 3)%Z blank_world);
          cleanup := [cap_release; destroyAllWindows] |}.
Proof.
  apply (interrupt_ends_main_gracefully hypot_exact [] [] _ blank_world
           blank_world initial_locals (480, 640, 3)%Z (hand_spread 10) []).
  - reflexivity.
  - reflexivity.
  - reflexivity.
  - simpl. lia.
  - reflexivity.
Defined.

Lemma endpoint_cannot_crash_main_witness :
  match main hypot_exact
          [frame_with [hand_spread 5] failing_endpoint;
           {| capture := Some (480, 640, 3)%Z;
              multi_hand_landmarks := [hand_spread 10];
              volume := failing_endpoint; key := 27 |}] blank_world with
  | Some fin => uncaught fin = None
  | None => False
  end.
Proof.
  destruct (main _ _ _) as [fin|] eqn:E.
  - refine (proj1 (endpoint_cannot_crash_main hypot_exact _ blank_world fin
                     _ E)).
    constructor; [|constructor; [|constructor]];
      (split; [discriminate|]);
      intros hand others H; inversion H; simpl; lia.
  - vm_compute in E. discriminate E.
Defined.

Lemma program_greets_witness :
  match program hypot_exact
          [{| capture := Some (480, 640, 3)%Z; multi_hand_landmarks := [];
              volume := healthy_endpoint; key := 27 |}] blank_world with
  | Some fin =>
      exists rest,
        console (final fin) =
        ["Welcome to Hand Gesture Volume Control!";
         "Adjust your computer's volume by spreading your fingers or bringing fingertips close together.";
         "Press 'Esc' key to exit the program."]%string ++ rest
  | None => False
  end.
Proof.
  destruct (program _ _ _) as [fin|] eqn:E.
  - exact (program_greets hypot_exact _ blank_world fin E).
  - vm_compute in E. discriminate E.
Defined.
